(** * Vue 2 core: the patch identity rule, list diff, unmount, watchers and
    slot rendering, as a shallow embedding of the files as they are.

    Sources embedded:
    - [src/core/vdom/patch.js]      (module [Patch])
    - [src/core/observer/watcher.js] and
      [src/core/instance/state.js]  (module [Observer])
    - the [renderSlot] render helper (module [RenderHelpers]). *)

From stdpp Require Import base gmap sets list strings.
From Stdlib Require Import ZArith Lia.

Set Warnings "-register-all,-clear-no-such-hyp,-level-tolerance".

Open Scope Z_scope.

(** ** JavaScript values and the shared utilities *)

Module Js.

(** The JavaScript values the embedded code inspects.  Numbers are kept as
    integers plus [NaN] (the one number that is not strictly equal to
    itself); objects are references into a heap. *)
Inductive JsVal : Type :=
  | JUndef
  | JNull
  | JBool (b : bool)
  | JNum (z : Z)
  | JNaN
  | JStr (s : string)
  | JObj (ref : nat).

#[export] Instance JsVal_eq_dec : EqDecision JsVal.
Proof. solve_decision. Defined.

#[export] Instance JsVal_inhabited : Inhabited JsVal := populate JUndef.

(** [x === y] *)
Definition strict_eq (x y : JsVal) : bool :=
  match x, y with
  | JNaN, _ | _, JNaN => false
  | _, _ => bool_decide (x = y)
  end.

(** Errors that travel through [throw]. *)
Inductive JsError : Type :=
  | TypeError
  | ReferenceError
  | UserError (payload : JsVal).

#[export] Instance JsError_eq_dec : EqDecision JsError.
Proof. solve_decision. Defined.

(** Completion of a call: a returned value or a thrown error. *)
Inductive result (A : Type) : Type :=
  | Ok (a : A)
  | Throw (e : JsError).
Arguments Ok {A} a.
Arguments Throw {A} e.

#[export] Instance result_bind : MBind result := λ A B k r,
  match r with
  | Ok a => k a
  | Throw e => Throw e
  end.

#[export] Instance result_ret : MRet result := @Ok.

(** Modelled from the spec: [isUndef] of [shared/util], which the
    sources import but do not contain: a value is undefined when it is
    [undefined] or [null].  Members typed as optional are kept as
    [option]; [isTrue] is applied to boolean members only. *)
Definition isUndef (v : JsVal) : bool :=
  match v with
  | JUndef | JNull => true
  | _ => false
  end.

(** Modelled from the spec: [isObject] of [shared/util]; the spec calls
    the values it accepts the non-primitives. *)
Definition isObject (v : JsVal) : bool :=
  match v with
  | JObj _ => true
  | _ => false
  end.

(** Truthiness, as tested by [if (v)], [v && w] and [v || w]. *)
Definition truthy (v : JsVal) : bool :=
  match v with
  | JUndef | JNull | JNaN => false
  | JBool b => b
  | JNum z => negb (z =? 0)
  | JStr s => negb (bool_decide (s = ""%string))
  | JObj _ => true
  end.

(** [arr[i]] for an integer index: [undefined] outside the array. *)
Definition nth_js {A} (l : list A) (i : Z) : option A :=
  if i <? 0 then None else l !! Z.to_nat i.

End Js.

Export Js.

(** ** The reconciler: [src/core/vdom/patch.js] *)

Module Patch.

(** How a remove listener treats the [rm] callback it is handed: it calls
    it back before returning, or keeps it and calls it back later (an exit
    animation). *)
Inductive RmUse : Type :=
  | RmNow
  | RmLater.

(** [vnode.data.hook]: which hooks are installed. *)
Record Hooks : Type := mkHooks {
  hook_destroy : bool;
  hook_remove : option RmUse
}.

(** [vnode.data], reduced to the members patch.js names on the paths
    embedded here. *)
Record VNodeData : Type := mkData {
  attrs : option (gmap string JsVal);
  hook : option Hooks
}.

(** A virtual node.  [asyncFactory] is a reference to the factory function
    object; [elm] the render-target node, by identity. *)
Inductive VNode : Type := mkVNode {
  tag : option string;
  data : option VNodeData;
  children : option (list VNode);
  elm : option nat;
  key : JsVal;
  isComment : bool;
  isAsyncPlaceholder : bool;
  asyncFactory : option nat;
  componentInstance : option Component
}
with Component : Type := mkComponent {
  _vnode : option VNode
}.

(** What [patch] is handed as [oldVnode]: a virtual node, or on the first
    mount of a root instance the real element to mount on. *)
Inductive Root : Type :=
  | VirtualRoot (vnode : VNode)
  | RealElement (el : nat).

(** [oldVnode.nodeType]: defined for a real element only. *)
Definition nodeType (oldVnode : Root) : option nat :=
  match oldVnode with
  | VirtualRoot _ => None
  | RealElement _ => Some 1%nat
  end.

(** *** The unbound identifier

    The import list of [patch.js] (line 23) names [isdef].  The body of
    the file calls [isDef], which no import, declaration or parameter of
    the file binds, and which is no global of the host.  The file is a
    module, hence strict code: evaluating a call [isDef (x)] looks the
    callee up first and throws a ReferenceError, before [x] is evaluated.
    No call returns, so the type of what it returns is empty, and what
    the code does with the value is never run. *)
Definition isDef {A : Type} (argument : A) : result Empty_set :=
  Throw ReferenceError.

(** The completion of a computation whose next step is a call that does
    not return. *)
Definition unreachable {B : Type} (call : result Empty_set) : result B :=
  value ← call;
  match value : Empty_set with end.

Section Backend.

(** The [error] member of the async factory stored at a reference. *)
Variable factoryError : nat -> JsVal.

(** [process.env.NODE_ENV === 'production'] *)
Variable production : bool.

(** *** The identity rule *)

(** [sameInputType (a, b)]: for an [input] the first statement after the
    test of the tag calls [isDef] (line 59). *)
Definition sameInputType (a b : VNode) : result bool :=
  if bool_decide (tag a ≠ Some "input"%string) then Ok true
  else unreachable (isDef (data a)).

(** [sameVnode (a, b)].  When keys, tags and comment flags agree, the
    next operand is [isDef (a.data)] (line 45), so that
    [isDef (b.data)] and [sameInputType (a, b)] are never reached; when
    the tags or the comment flags differ, the first disjunct is false and
    the second one decides.  It dereferences [b.asyncFactory], which
    throws a TypeError when there is none. *)
Definition sameVnode (a b : VNode) : result bool :=
  if strict_eq (key a) (key b) then
    if bool_decide (tag a = tag b) && bool_decide (isComment a = isComment b)
    then unreachable (isDef (data a))
    else if isAsyncPlaceholder a then
      if bool_decide (asyncFactory a = asyncFactory b) then
        match asyncFactory b with
        | None => Throw TypeError
        | Some f => Ok (isUndef (factoryError f))
        end
      else Ok false
    else Ok false
  else Ok false.

(** *** The key map *)

(** [children[i]] in an array whose slots may hold [undefined]. *)
Definition slot (ch : list (option VNode)) (i : Z) : option VNode :=
  mjoin (nth_js ch i).

(** The object [createKeyToOldIdx] returns: [{}] as the literal made it,
    since no assignment to it is reached. *)
Inductive KeyToIdx : Type :=
  | NoEntry.

(** [createKeyToOldIdx (children, beginIdx, endIdx)].  The first pass
    of the loop reads [children[beginIdx].key], a TypeError when the slot
    holds no node, and then calls [isDef (key)] (line 70); no pass
    completes, so the function returns only when the range is empty. *)
Definition createKeyToOldIdx (children : list (option VNode))
    (beginIdx endIdx : Z) : result KeyToIdx :=
  if beginIdx <=? endIdx then
    match slot children beginIdx with
    | None => Throw TypeError
    | Some c => unreachable (isDef (key c))
    end
  else Ok NoEntry.

(** [checkDuplicateKeys (children)]: the first pass of the loop calls
    [isDef (key)] (line 554). *)
Definition checkDuplicateKeys (children : list VNode) : result unit :=
  match children with
  | [] => Ok ()
  | vnode :: _ => unreachable (isDef (key vnode))
  end.

(** [findIdxInOld (node, oldCh, start, end)]: [i] runs over
    [start <= i < end], and the first pass calls [isDef (c)]
    (line 570); without a pass the function returns undefined. *)
Definition findIdxInOld (node : VNode) (oldCh : list (option VNode))
    (start end_ : Z) : result (option Z) :=
  if start <? end_ then unreachable (isDef (slot oldCh start))
  else Ok None.

(** *** Mount and unmount

    From here on the functions are local to [createPatchFunction]: they
    exist once that function has returned. *)

(** [createElm (vnode, insertedVnodeQueue, parentElm, refElm, nested,
    ownerArray, index)]: its first statement calls [isDef (vnode.elm)]
    (line 144). *)
Definition createElm (vnode : option VNode) : result Empty_set :=
  isDef (elm <$> vnode).

(** [addVnodes (parentElm, refElm, vnodes, startIdx, endIdx, queue)];
    [refElm] is [None] for [null]. *)
Definition addVnodes (refElm : option (option nat)) (vnodes : list VNode)
    (startIdx endIdx : Z) : result unit :=
  if startIdx <=? endIdx then unreachable (createElm (nth_js vnodes startIdx))
  else Ok ().

(** [invokeDestroyHook (vnode)]: after reading [vnode.data] it calls
    [isDef (data)] (line 401). *)
Definition invokeDestroyHook (vnode : VNode) : result unit :=
  unreachable (isDef (data vnode)).

(** [removeAndInvokeRemoveHook (vnode, rm)]: its first statement calls
    [isDef (rm)] (line 430). *)
Definition removeAndInvokeRemoveHook {Rm : Type} (vnode : VNode)
    (rm : option Rm) : result unit :=
  unreachable (isDef rm).

(** [removeVnodes (parentElm, vnodes, startIdx, endIdx)]: the first pass
    of the loop reads [vnodes[startIdx]] and calls [isDef (ch)]
    (line 416). *)
Definition removeVnodes (vnodes : list (option VNode)) (startIdx endIdx : Z)
    : result unit :=
  if startIdx <=? endIdx then unreachable (isDef (slot vnodes startIdx))
  else Ok ().

(** [patchVnode (oldVnode, vnode, insertedVnodeQueue, ownerArray, index,
    removeOnly)]; [identical] is the outcome of [oldVnode === vnode], for
    which the function returns at once.  Otherwise its next statement
    calls [isDef (vnode.elm)] (line 588). *)
Definition patchVnode (identical : bool) (vnode : VNode) : result unit :=
  if identical then Ok ()
  else unreachable (isDef (elm vnode)).

(** *** List diff *)

(** Where [nodeOps.insertBefore] puts a node: before a given node, or
    before the next sibling of a given node. *)
Inductive Ref : Type :=
  | AtElm (el : option nat)
  | AtNextSibling (el : option nat).

(** A call on the render target. *)
Inductive Event : Type :=
  | EInsertBefore (el : option nat) (ref : Ref).

(** The variables of [updateChildren], and the calls made on the render
    target so far. *)
Record Diff : Type := mkDiff {
  oldCh : list (option VNode);
  newCh : list VNode;
  oldStartIdx : Z;
  newStartIdx : Z;
  oldEndIdx : Z;
  newEndIdx : Z;
  oldStartVnode : option VNode;
  oldEndVnode : option VNode;
  newStartVnode : option VNode;
  newEndVnode : option VNode;
  oldKeyToIdx : option KeyToIdx;
  trace : list Event
}.

Definition emit (evs : list Event) (st : Diff) : Diff :=
  mkDiff (oldCh st) (newCh st) (oldStartIdx st) (newStartIdx st)
    (oldEndIdx st) (newEndIdx st) (oldStartVnode st) (oldEndVnode st)
    (newStartVnode st) (newEndVnode st) (oldKeyToIdx st) (trace st ++ evs).

(** [oldStartVnode = oldCh[++oldStartIdx]] *)
Definition advance_oldStart (st : Diff) : Diff :=
  mkDiff (oldCh st) (newCh st) (oldStartIdx st + 1) (newStartIdx st)
    (oldEndIdx st) (newEndIdx st) (slot (oldCh st) (oldStartIdx st + 1))
    (oldEndVnode st) (newStartVnode st) (newEndVnode st) (oldKeyToIdx st)
    (trace st).

(** [oldEndVnode = oldCh[--oldEndIdx]] *)
Definition retreat_oldEnd (st : Diff) : Diff :=
  mkDiff (oldCh st) (newCh st) (oldStartIdx st) (newStartIdx st)
    (oldEndIdx st - 1) (newEndIdx st) (oldStartVnode st)
    (slot (oldCh st) (oldEndIdx st - 1)) (newStartVnode st) (newEndVnode st)
    (oldKeyToIdx st) (trace st).

(** [newStartVnode = newCh[++newStartIdx]] *)
Definition advance_newStart (st : Diff) : Diff :=
  mkDiff (oldCh st) (newCh st) (oldStartIdx st) (newStartIdx st + 1)
    (oldEndIdx st) (newEndIdx st) (oldStartVnode st) (oldEndVnode st)
    (nth_js (newCh st) (newStartIdx st + 1)) (newEndVnode st)
    (oldKeyToIdx st) (trace st).

(** [newEndVnode = newCh[--newEndIdx]] *)
Definition retreat_newEnd (st : Diff) : Diff :=
  mkDiff (oldCh st) (newCh st) (oldStartIdx st) (newStartIdx st)
    (oldEndIdx st) (newEndIdx st - 1) (oldStartVnode st) (oldEndVnode st)
    (newStartVnode st) (nth_js (newCh st) (newEndIdx st - 1))
    (oldKeyToIdx st) (trace st).

(** The last branch of the loop of [updateChildren] (lines 506-533):
    [if (isUndef(oldKeyToIdx)) oldKeyToIdx = createKeyToOldIdx(...)], and
    then the call [isDef (newStartVnode.key)] of line 510, so that the
    lookup in the map, [findIdxInOld], the mount and the move are never
    reached. *)
Definition noPositionalMatch (st : Diff) (node : VNode) : result Diff :=
  _ ← match oldKeyToIdx st with
      | None => createKeyToOldIdx (oldCh st) (oldStartIdx st) (oldEndIdx st)
      | Some map => Ok map
      end;
  unreachable (isDef (key node)).

(** One pass through the body of the [while] loop.  A node compared with
    an undefined one throws a TypeError at [b.key].  The two nodes handed
    to [patchVnode] are never one object: [sameVnode] answered true for
    them, which it does for no node and itself
    ([sameVnode_of_one_node] below). *)
Definition loop_body (removeOnly : bool) (st : Diff) : result Diff :=
  let canMove := negb removeOnly in
  match oldStartVnode st, oldEndVnode st with
  | None, _ => Ok (advance_oldStart st)
  | Some _, None => Ok (retreat_oldEnd st)
  | Some os, Some oe =>
      match newStartVnode st with
      | None => Throw TypeError
      | Some ns =>
          same ← sameVnode os ns;
          if same : bool then
            _ ← patchVnode false ns;
            Ok (advance_newStart (advance_oldStart st))
          else
            match newEndVnode st with
            | None => Throw TypeError
            | Some ne =>
                same ← sameVnode oe ne;
                if same : bool then
                  _ ← patchVnode false ne;
                  Ok (retreat_newEnd (retreat_oldEnd st))
                else
                  same ← sameVnode os ne;
                  if same : bool then
                    _ ← patchVnode false ne;
                    let st :=
                      if canMove
                      then emit [EInsertBefore (elm os)
                                   (AtNextSibling (elm oe))] st
                      else st in
                    Ok (retreat_newEnd (advance_oldStart st))
                  else
                    same ← sameVnode oe ns;
                    if same : bool then
                      _ ← patchVnode false ns;
                      let st :=
                        if canMove
                        then emit [EInsertBefore (elm oe) (AtElm (elm os))] st
                        else st in
                      Ok (advance_newStart (retreat_oldEnd st))
                    else noPositionalMatch st ns
            end
      end
  end.

(** [while (oldStartIdx <= oldEndIdx && newStartIdx <= newEndIdx)] *)
Definition loop_guard (st : Diff) : bool :=
  (oldStartIdx st <=? oldEndIdx st) && (newStartIdx st <=? newEndIdx st).

(** The loop, with an explicit bound on the number of passes; [None] when
    the bound is reached before the guard fails. *)
Fixpoint run_loop (removeOnly : bool) (fuel : nat) (st : Diff)
    : option (result Diff) :=
  if loop_guard st then
    match fuel with
    | O => None
    | S fuel =>
        match loop_body removeOnly st with
        | Ok st => run_loop removeOnly fuel st
        | Throw e => Some (Throw e)
        end
    end
  else Some (Ok st).

(** The statements after the loop. *)
Definition after_loop (st : Diff) : result Diff :=
  if oldStartIdx st >? oldEndIdx st then
    let refElm :=
      match nth_js (newCh st) (newEndIdx st + 1) with
      | None => None
      | Some v => Some (elm v)
      end in
    _ ← addVnodes refElm (newCh st) (newStartIdx st) (newEndIdx st);
    Ok st
  else if newStartIdx st >? newEndIdx st then
    _ ← removeVnodes (oldCh st) (oldStartIdx st) (oldEndIdx st);
    Ok st
  else Ok st.

Definition init_diff (oldCh : list (option VNode)) (newCh : list VNode)
    : Diff :=
  let oldEndIdx := Z.of_nat (length oldCh) - 1 in
  let newEndIdx := Z.of_nat (length newCh) - 1 in
  mkDiff oldCh newCh 0 0 oldEndIdx newEndIdx
    (slot oldCh 0) (slot oldCh oldEndIdx)
    (nth_js newCh 0) (nth_js newCh newEndIdx)
    None [].

(** [updateChildren (parentElm, oldCh, newCh, insertedVnodeQueue,
    removeOnly)]; the loop makes at most one pass per old and new child.
    The result is the state the function ends in. *)
Definition updateChildren (oldCh : list (option VNode)) (newCh : list VNode)
    (removeOnly : bool) : option (result Diff) :=
  match (if production then Ok () else checkDuplicateKeys newCh) with
  | Throw e => Some (Throw e)
  | Ok _ =>
      r ← run_loop removeOnly (length oldCh + length newCh)
            (init_diff oldCh newCh);
      Some (r ≫= after_loop)
  end.

(** *** The entry point *)

(** [patch (oldVnode, vnode, hydrating, removeOnly)]; what it returns is
    undefined or a node of the render target.  Each of its three ways
    starts with a call of [isDef]: [isDef (oldVnode)] without a new root
    (line 797), the first statement of [createElm] without an old root
    (lines 807 and 144), and [isDef (oldVnode.nodeType)] otherwise
    (line 811). *)
Definition patch (oldVnode : option Root) (vnode : option VNode)
    : result (option nat) :=
  match vnode with
  | None => unreachable (isDef oldVnode)
  | Some vnode =>
      match oldVnode with
      | None => unreachable (createElm (Some vnode))
      | Some oldVnode => unreachable (isDef (nodeType oldVnode))
      end
  end.

(** [createPatchFunction (backend)], with [modules] for
    [backend.modules]: the loop that fills [cbs] calls [isDef] for the
    first hook of the first module (line 87); without a module it makes
    no pass, and the function returns [patch]. *)
Definition createPatchFunction {Module_ : Type} (modules : list Module_)
    : result (option Root → option VNode → result (option nat)) :=
  match modules with
  | [] => Ok patch
  | module :: _ => unreachable (isDef module)
  end.

(** *** Vocabulary of the statements below *)

(** Keys, tags and comment flags of the two nodes agree. *)
Definition agree (a b : VNode) : Prop :=
  strict_eq (key a) (key b) = true ∧ tag a = tag b ∧ isComment a = isComment b.

(** The second disjunct of [sameVnode] is entered with the same factory
    on both sides. *)
Definition same_placeholder (a b : VNode) : Prop :=
  isAsyncPlaceholder a = true ∧ asyncFactory a = asyncFactory b.

(** The passes the loop can still make. *)
Definition passes_left (st : Diff) : nat :=
  (Z.to_nat (oldEndIdx st - oldStartIdx st + 1)
   + Z.to_nat (newEndIdx st - newStartIdx st + 1))%nat.

(** A pass that completes has stepped over an undefined old slot. *)
Definition skips_a_slot (st st' : Diff) : Prop :=
  (oldStartVnode st = None ∧ st' = advance_oldStart st) ∨
  (oldEndVnode st = None ∧ st' = retreat_oldEnd st).

(** *** What a call of [isDef] leaves of a function *)

Lemma unreachable_isDef {A B : Type} (argument : A) :
  unreachable (isDef argument) = (Throw ReferenceError : result B).
Proof. reflexivity. Qed.

(** *** The identity rule *)

(** [sameVnode] answers true for no node and itself: either the key is
    [NaN] and the answer is false, or the call of [isDef] is reached. *)
Lemma sameVnode_of_one_node (a : VNode) : sameVnode a a ≠ Ok true.
Proof.
  unfold sameVnode. destruct (strict_eq (key a) (key a)); [|done].
  by rewrite !bool_decide_eq_true_2 by done.
Qed.

(** C1, as the code has it: for two nodes whose keys, tags and comment
    flags agree, the pairs for which the first alternative of the
    claimed rule can hold, [sameVnode] does not answer: it throws the
    ReferenceError of the unbound [isDef] at line 45. *)
Theorem sameVnode_agreeing_nodes_throw (a b : VNode) :
  agree a b → sameVnode a b = Throw ReferenceError.
Proof.
  intros (Hkey & Htag & Hcomment). unfold sameVnode.
  rewrite Hkey. by rewrite !bool_decide_eq_true_2 by done.
Qed.

(** X2: [sameVnode] as written, outcome by outcome.  It throws a
    ReferenceError exactly when keys, tags and comment flags agree; a
    TypeError exactly when the keys agree, the tags or the comment flags
    differ, the first node is an async placeholder and neither node has
    an async factory; it answers true exactly when the keys agree, the
    tags or the comment flags differ, the first node is an async
    placeholder with the factory of the second, and that factory has no
    error; in every other case it answers false.  It never answers true
    for a node and itself. *)
Theorem sameVnode_as_written (a b : VNode) :
  (sameVnode a b = Throw ReferenceError ↔ agree a b) ∧
  (sameVnode a b = Throw TypeError ↔
     strict_eq (key a) (key b) = true ∧
     ¬ (tag a = tag b ∧ isComment a = isComment b) ∧
     same_placeholder a b ∧ asyncFactory b = None) ∧
  (sameVnode a b = Ok true ↔
     strict_eq (key a) (key b) = true ∧
     ¬ (tag a = tag b ∧ isComment a = isComment b) ∧
     same_placeholder a b ∧
     ∃ f, asyncFactory b = Some f ∧ isUndef (factoryError f) = true) ∧
  (∀ e, sameVnode a b = Throw e → e = ReferenceError ∨ e = TypeError) ∧
  sameVnode a a ≠ Ok true.
Proof.
  split; [|split; [|split; [|split]]]; [| | | |apply sameVnode_of_one_node];
    unfold sameVnode, agree, same_placeholder;
    (destruct (strict_eq (key a) (key b));
       [|try (split; [done | by intros (? & _)]); done]);
    (destruct (decide (tag a = tag b)) as [Ht|Ht];
       [rewrite (bool_decide_eq_true_2 _ Ht)
       |rewrite (bool_decide_eq_false_2 _ Ht)]; simpl);
    try (destruct (decide (isComment a = isComment b)) as [Hc|Hc];
         [rewrite (bool_decide_eq_true_2 _ Hc)
         |rewrite (bool_decide_eq_false_2 _ Hc)]; simpl).
  (* ReferenceError *)
  - done.
  - split; [|by intros (_ & _ & ?)].
    destruct (isAsyncPlaceholder a); [|done]. case_bool_decide; [|done].
    by destruct (asyncFactory b).
  - split; [|by intros (_ & ? & _)].
    destruct (isAsyncPlaceholder a); [|done]. case_bool_decide; [|done].
    by destruct (asyncFactory b).
  (* TypeError *)
  - split; [done|]. intros (_ & Hn & _). by destruct Hn.
  - destruct (isAsyncPlaceholder a);
      [|split; [done | by intros (_ & _ & (? & _) & _)]].
    case_bool_decide as Hf;
      [|split; [done | by intros (_ & _ & (_ & ?) & _)]].
    destruct (asyncFactory b) as [f|] eqn:Hb.
    + split; [done | by intros (_ & _ & _ & ?)].
    + split; [intros _|done]. repeat split; try done. by intros (_ & ?).
  - destruct (isAsyncPlaceholder a);
      [|split; [done | by intros (_ & _ & (? & _) & _)]].
    case_bool_decide as Hf;
      [|split; [done | by intros (_ & _ & (_ & ?) & _)]].
    destruct (asyncFactory b) as [f|] eqn:Hb.
    + split; [done | by intros (_ & _ & _ & ?)].
    + split; [intros _|done]. repeat split; try done. by intros (? & _).
  (* true *)
  - split; [done|]. intros (_ & Hn & _). by destruct Hn.
  - destruct (isAsyncPlaceholder a);
      [|split; [done | by intros (_ & _ & (? & _) & _)]].
    case_bool_decide as Hf;
      [|split; [done | by intros (_ & _ & (_ & ?) & _)]].
    destruct (asyncFactory b) as [f|] eqn:Hb.
    + split.
      * intros [= Hu]. repeat split; try done; [by intros (_ & ?)|].
        by exists f.
      * intros (_ & _ & _ & f' & [= <-] & ->). done.
    + split; [done | by intros (_ & _ & _ & f' & ? & _)].
  - destruct (isAsyncPlaceholder a);
      [|split; [done | by intros (_ & _ & (? & _) & _)]].
    case_bool_decide as Hf;
      [|split; [done | by intros (_ & _ & (_ & ?) & _)]].
    destruct (asyncFactory b) as [f|] eqn:Hb.
    + split.
      * intros [= Hu]. repeat split; try done; [by intros (? & _)|].
        by exists f.
      * intros (_ & _ & _ & f' & [= <-] & ->). done.
    + split; [done | by intros (_ & _ & _ & f' & ? & _)].
  (* the errors *)
  - intros e [= <-]. by left.
  - intros e. destruct (isAsyncPlaceholder a); [|done].
    case_bool_decide; [|done]. destruct (asyncFactory b); [done|].
    intros [= <-]. by right.
  - intros e. destruct (isAsyncPlaceholder a); [|done].
    case_bool_decide; [|done]. destruct (asyncFactory b); [done|].
    intros [= <-]. by right.
Qed.

(** *** The key map and the duplicate keys *)

(** X4: [createKeyToOldIdx] as written returns only for an empty range,
    and then the object without entries; for any other range it throws
    at its first index: a TypeError when the slot there holds no node,
    the ReferenceError of [isDef] when it holds one. *)
Theorem createKeyToOldIdx_as_written (children : list (option VNode))
    (beginIdx endIdx : Z) :
  (∀ map, createKeyToOldIdx children beginIdx endIdx = Ok map ↔
          endIdx < beginIdx) ∧
  (createKeyToOldIdx children beginIdx endIdx = Throw TypeError ↔
     beginIdx ≤ endIdx ∧ slot children beginIdx = None) ∧
  (createKeyToOldIdx children beginIdx endIdx = Throw ReferenceError ↔
     beginIdx ≤ endIdx ∧ is_Some (slot children beginIdx)).
Proof.
  unfold createKeyToOldIdx.
  destruct (Z.leb_spec beginIdx endIdx) as [Hle|Hgt].
  - destruct (slot children beginIdx) as [c|]; simpl.
    + split; [intros map; split; [done | lia]|].
      split; [split; [done | by intros (_ & ?)]|].
      split; [by intros _ | done].
    + split; [intros map; split; [done | lia]|].
      split; [done|].
      split; [done | by intros (_ & [? ?])].
  - split; [intros []; by split|].
    split; (split; [done | intros (? & _); lia]).
Qed.

(** C8, as the code has it: for every non-empty child list, and so for
    every list in which two children carry the same defined key,
    [checkDuplicateKeys] throws the ReferenceError of the unbound
    [isDef] at line 554 without a warning, and [createKeyToOldIdx] over
    the list throws it at line 70 without an entry. *)
Theorem keyed_children_throw (children : list VNode) :
  children ≠ [] →
  checkDuplicateKeys children = Throw ReferenceError ∧
  createKeyToOldIdx (Some <$> children) 0 (Z.of_nat (length children) - 1)
    = Throw ReferenceError.
Proof.
  intros Hne. destruct children as [|c children]; [done|]. split; [done|].
  unfold createKeyToOldIdx.
  rewrite (proj2 (Z.leb_le _ _)) by (simpl; lia). done.
Qed.

(** *** Removal *)

(** C6, as the code has it: over every range that is not empty
    [removeVnodes] throws the ReferenceError of the unbound [isDef] at
    line 416, on its first pass: no destroy hook and no remove hook is
    invoked, and no node is detached. *)
Theorem removeVnodes_throws_on_first_pass (vnodes : list (option VNode))
    (startIdx endIdx : Z) :
  startIdx ≤ endIdx →
  removeVnodes vnodes startIdx endIdx = Throw ReferenceError.
Proof.
  intros Hle. unfold removeVnodes.
  by rewrite (proj2 (Z.leb_le _ _)) by done.
Qed.

(** *** The list diff *)

Lemma noPositionalMatch_throws (st : Diff) (node : VNode) :
  (∃ e, noPositionalMatch st node = Throw e) ∧
  (is_Some (slot (oldCh st) (oldStartIdx st)) →
   noPositionalMatch st node = Throw ReferenceError).
Proof.
  unfold noPositionalMatch, createKeyToOldIdx.
  destruct (oldKeyToIdx st) as [map|]; simpl.
  - split; [by eexists | done].
  - destruct (oldStartIdx st <=? oldEndIdx st); simpl.
    + destruct (slot (oldCh st) (oldStartIdx st)) as [c|]; simpl.
      * split; [by eexists | done].
      * split; [by eexists | by intros [? ?]].
    + split; [by eexists | done].
Qed.

Lemma loop_body_completes (removeOnly : bool) (st st' : Diff) :
  loop_body removeOnly st = Ok st' → skips_a_slot st st'.
Proof.
  unfold loop_body, skips_a_slot. intros Hstep.
  destruct (oldStartVnode st) as [os|];
    [|left; split; [done | by injection Hstep]].
  destruct (oldEndVnode st) as [oe|];
    [|right; split; [done | by injection Hstep]].
  exfalso.
  destruct (newStartVnode st) as [ns|]; [|done].
  destruct (sameVnode os ns) as [[|]|]; simpl in Hstep; [done| |done].
  destruct (newEndVnode st) as [ne|]; [|done].
  destruct (sameVnode oe ne) as [[|]|]; simpl in Hstep; [done| |done].
  destruct (sameVnode os ne) as [[|]|]; simpl in Hstep; [done| |done].
  destruct (sameVnode oe ns) as [[|]|]; simpl in Hstep; [done| |done].
  destruct (noPositionalMatch_throws st ns) as ([e He] & _).
  by rewrite He in Hstep.
Qed.

Lemma loop_body_passes (removeOnly : bool) (st st' : Diff) :
  loop_guard st = true → loop_body removeOnly st = Ok st' →
  (passes_left st' < passes_left st)%nat.
Proof.
  intros Hg Hstep. unfold loop_guard in Hg.
  apply andb_true_iff in Hg as [Ho%Z.leb_le Hn%Z.leb_le].
  destruct (loop_body_completes _ _ _ Hstep) as [(_ & ->)|(_ & ->)];
    unfold passes_left; simpl; lia.
Qed.

Lemma run_loop_enough (removeOnly : bool) (fuel : nat) :
  ∀ st, (passes_left st ≤ fuel)%nat → is_Some (run_loop removeOnly fuel st).
Proof.
  induction fuel as [|fuel IH]; intros st Hfuel; simpl.
  - destruct (loop_guard st) eqn:Hg; [|done]. exfalso.
    unfold loop_guard in Hg.
    apply andb_true_iff in Hg as [Ho%Z.leb_le Hn%Z.leb_le].
    unfold passes_left in Hfuel. lia.
  - destruct (loop_guard st) eqn:Hg; [|done].
    destruct (loop_body removeOnly st) as [st'|e] eqn:Hstep; [|done].
    apply IH. pose proof (loop_body_passes _ _ _ Hg Hstep). lia.
Qed.

(** X1: The bound on the passes is never reached: [updateChildren]
    returns or throws. *)
Lemma updateChildren_terminates (oldCh : list (option VNode))
    (newCh : list VNode) (removeOnly : bool) :
  is_Some (updateChildren oldCh newCh removeOnly).
Proof.
  unfold updateChildren.
  destruct (if production then Ok () else checkDuplicateKeys newCh);
    [|done].
  destruct (run_loop_enough removeOnly (length oldCh + length newCh)
              (init_diff oldCh newCh)) as [r ->]; [|done].
  unfold passes_left, init_diff. simpl. lia.
Qed.

(** The loop changes nothing about the new children: every pass that
    completes steps over an undefined old slot. *)
Lemma run_loop_completes (removeOnly : bool) (fuel : nat) :
  ∀ st st',
    run_loop removeOnly fuel st = Some (Ok st') →
    loop_guard st' = false ∧
    newStartIdx st' = newStartIdx st ∧ newEndIdx st' = newEndIdx st ∧
    trace st' = trace st ∧
    (loop_guard st = false → st' = st).
Proof.
  induction fuel as [|fuel IH]; intros st st' Hrun; simpl in Hrun.
  - destruct (loop_guard st) eqn:Hg; [done|]. by injection Hrun as <-.
  - destruct (loop_guard st) eqn:Hg; [|by injection Hrun as <-].
    destruct (loop_body removeOnly st) as [st1|] eqn:Hstep; [|done].
    destruct (IH _ _ Hrun) as (Hend & Hns & Hne & Htr & _).
    destruct (loop_body_completes _ _ _ Hstep) as [(_ & ->)|(_ & ->)];
      simpl in *; by repeat split.
Qed.

Lemma after_loop_returns (st st' : Diff) :
  loop_guard st = false → after_loop st = Ok st' →
  st' = st ∧ oldEndIdx st < oldStartIdx st ∧ newEndIdx st < newStartIdx st.
Proof.
  unfold loop_guard, after_loop, addVnodes, removeVnodes.
  rewrite !Z.gtb_ltb.
  destruct (Z.ltb_spec (oldEndIdx st) (oldStartIdx st)) as [Ho|Ho].
  - destruct (Z.leb_spec (newStartIdx st) (newEndIdx st)) as [Hn|Hn];
      [done|].
    intros _ [= <-]. by repeat split.
  - rewrite (proj2 (Z.leb_le _ _) Ho). simpl. intros Hn%Z.leb_gt.
    by rewrite (proj2 (Z.ltb_lt _ _) Hn).
Qed.

(** X9: [updateChildren] as written returns for two empty child lists
    and for no other input, whatever [removeOnly] and the build: with a
    child on either side it ends in an error.  When it returns, nothing
    has happened. *)
Theorem updateChildren_returns_iff (oldCh : list (option VNode))
    (newCh : list VNode) (removeOnly : bool) (st : Diff) :
  updateChildren oldCh newCh removeOnly = Some (Ok st) ↔
  oldCh = [] ∧ newCh = [] ∧ st = init_diff [] [].
Proof.
  split.
  - unfold updateChildren. intros Hrun.
    destruct (if production then Ok () else checkDuplicateKeys newCh);
      [|done].
    destruct (run_loop removeOnly _ _) as [[st1|]|] eqn:Hloop;
      simpl in Hrun; try done.
    injection Hrun as Hafter.
    destruct (run_loop_completes _ _ _ _ Hloop)
      as (Hend & Hns & Hne & _ & Hinit).
    destruct (after_loop_returns _ _ Hend Hafter) as (-> & Hold & Hnew).
    rewrite Hns, Hne in Hnew. simpl in Hnew.
    assert (newCh = []) as -> by (destruct newCh; [done | simpl in *; lia]).
    rewrite Hinit in Hold |- *
      by (unfold loop_guard; simpl; by rewrite andb_false_r).
    simpl in Hold.
    by assert (oldCh = []) as ->
      by (destruct oldCh; [done | simpl in *; lia]).
  - intros (-> & -> & ->). unfold updateChildren. by destruct production.
Qed.

(** *** The entry point *)

(** C9, as the code has it: [patch (oldVnode, undefined)] throws the
    ReferenceError of the unbound [isDef] at line 797, with and without
    an old root: no destroy hook is invoked and the call does not
    return. *)
Theorem patch_without_vnode_throws (oldVnode : option Root) :
  patch oldVnode None = Throw ReferenceError.
Proof. unfold patch. apply unreachable_isDef. Qed.

(** X13: [patch] with a new root throws the ReferenceError of the
    unbound [isDef], whatever the old root is: none, a virtual node or a
    real element.  Nothing is created, patched or removed. *)
Theorem patch_with_vnode_throws (oldVnode : option Root) (vnode : VNode) :
  patch oldVnode (Some vnode) = Throw ReferenceError.
Proof. unfold patch. by destruct oldVnode. Qed.

(** X28: [createPatchFunction] returns, and then [patch], exactly for a
    backend without modules; for a backend with a module it throws the
    ReferenceError of the unbound [isDef] at line 87. *)
Theorem createPatchFunction_as_written {Module_ : Type}
    (modules : list Module_) :
  (∀ p, createPatchFunction modules = Ok p ↔ modules = [] ∧ p = patch) ∧
  (createPatchFunction modules = Throw ReferenceError ↔ modules ≠ []).
Proof.
  destruct modules as [|m modules]; simpl.
  - split; [|by split].
    intros p. split; [by intros [= <-] | by intros (_ & ->)].
  - split; [|by split]. intros p. split; [done | by intros (? & _)].
Qed.

End Backend.

(** *** Instances for the examples *)

(** No async factory has failed. *)
Definition noFactoryError (f : nat) : JsVal := JUndef.

(** An element node without children, component or async factory. *)
Definition element (t : string) (k : JsVal) (d : option VNodeData)
    (e : option nat) : VNode :=
  mkVNode (Some t) d None e k false false None None.

(** [<div>] with a destroy hook, mounted at node 1. *)
Definition div_with_destroy_hook : VNode :=
  element "div" JUndef (Some (mkData None (Some (mkHooks true None))))
    (Some 1%nat).

Definition li (k : string) (e : option nat) : VNode :=
  element "li" (JStr k) None e.

Definition keyed (k : Z) (e : option nat) : VNode :=
  element "div" (JNum k) None e.

(** Two children with the key 2. *)
Definition duplicate_new : list VNode :=
  [keyed 2 None; keyed 2 None; keyed 4 None].

(** *** The statements at concrete inputs *)

(** Two [<div>] nodes without key: the claimed rule makes them the same
    node. *)
Lemma sameVnode_agreeing_nodes_throw_witness :
  sameVnode noFactoryError
    (element "div" JUndef None (Some 1%nat)) (element "div" JUndef None None)
  = Throw ReferenceError.
Proof.
  apply (sameVnode_agreeing_nodes_throw noFactoryError). by repeat split.
Defined.

Lemma keyed_children_throw_witness :
  checkDuplicateKeys duplicate_new = Throw ReferenceError ∧
  createKeyToOldIdx (Some <$> duplicate_new) 0 2 = Throw ReferenceError.
Proof.
  apply (keyed_children_throw duplicate_new). discriminate.
Defined.

Lemma removeVnodes_throws_on_first_pass_witness :
  removeVnodes [Some div_with_destroy_hook] 0 0 = Throw ReferenceError.
Proof.
  apply (removeVnodes_throws_on_first_pass [Some div_with_destroy_hook] 0 0).
  lia.
Defined.

Lemma patch_without_vnode_throws_witness :
  patch (Some (VirtualRoot div_with_destroy_hook)) None
  = Throw ReferenceError.
Proof.
  exact (patch_without_vnode_throws (Some (VirtualRoot div_with_destroy_hook))).
Defined.

(** C2, as the code has it: the branch of the loop taken when no cursor
    comparison matches never returns: it throws in [createKeyToOldIdx]
    or at the call [isDef (newStartVnode.key)] of line 510, the
    ReferenceError of the unbound [isDef] whenever the slot at old-start
    holds a node, as it does when the branch is entered.  Old [a]
    against new [b]: in a production build the four comparisons answer
    false, the branch is entered and throws; in a development build
    [checkDuplicateKeys] has thrown before the loop.  Either way
    [updateChildren] throws the ReferenceError and [b] is not mounted. *)
Theorem updateChildren_no_positional_match_throws :
  (∀ st node,
     (∃ e, noPositionalMatch st node = Throw e) ∧
     (is_Some (slot (oldCh st) (oldStartIdx st)) →
      noPositionalMatch st node = Throw ReferenceError)) ∧
  (∀ removeOnly,
     loop_body noFactoryError removeOnly
       (init_diff [Some (li "a" (Some 1%nat))] [li "b" None])
     = noPositionalMatch
         (init_diff [Some (li "a" (Some 1%nat))] [li "b" None])
         (li "b" None)) ∧
  (∀ production removeOnly,
     updateChildren noFactoryError production
       [Some (li "a" (Some 1%nat))] [li "b" None] removeOnly
     = Some (Throw ReferenceError)).
Proof.
  split; [apply noPositionalMatch_throws|]. split.
  - by intros [|].
  - by intros [|] [|].
Qed.

End Patch.

(** ** The observer: [src/core/observer/watcher.js] and the computed
    getter of [src/core/instance/state.js] *)

Module Observer.

(** A watcher.  Deps are known by their [id]; [deps] and [newDeps] are
    the arrays, [depIds] and [newDepIds] the sets of ids. *)
Record Watcher : Type := mkWatcher {
  deep : bool;
  user : bool;
  lazy : bool;
  sync : bool;
  dirty : bool;
  active : bool;
  deps : list nat;
  newDeps : list nat;
  depIds : gset nat;
  newDepIds : gset nat;
  value : JsVal
}.

#[export] Instance Watcher_inhabited : Inhabited Watcher :=
  populate (mkWatcher false false false false false true [] [] ∅ ∅ JUndef).

(** The heap the watchers live in, with what the calls into the outside
    leave behind: [evaluated] lists the watchers whose getter was invoked,
    [handled] the errors given to [handleError], [callbacks] the
    invocations of [cb] as (watcher, value, oldValue), [queue] the calls of
    [queueWatcher]. *)
Record Store : Type := mkStore {
  subs : gmap nat (list nat);
  watchers : gmap nat Watcher;
  targetStack : list (option nat);
  evaluated : list nat;
  handled : list (JsError * nat);
  callbacks : list (nat * JsVal * JsVal);
  queue : list nat
}.

(** What the getter of a watcher does when it is invoked now: the Deps
    whose [depend] it triggers, in order, and how it completes.  This
    describes user code that reads reactive properties and does nothing
    else to the reactive state; code that reads a computed property, and
    so evaluates another watcher, or that writes state, is outside it. *)
Record Evaluation : Type := mkEvaluation {
  reads : list nat;
  outcome : result JsVal
}.

(** The component that owns a watcher, as far as a watcher touches it. *)
Record Vm : Type := mkVm {
  _watchers : list nat;
  _isBeingDestroyed : bool
}.

(** The [options] of the constructor and of [$watch], each member by its
    truth value. *)
Module Options.
Record t : Type := mk {
  deep : bool;
  user : bool;
  lazy : bool;
  sync : bool;
  immediate : bool
}.
End Options.

Section Watchers.

(** The Deps that [traverse (value)] touches; [observer/traverse] is not
    among the sources. *)
Variable traverse : JsVal → list nat.

Definition set_subs (s : gmap nat (list nat)) (st : Store) : Store :=
  mkStore s (watchers st) (targetStack st) (evaluated st) (handled st)
    (callbacks st) (queue st).

Definition set_watcher (w : nat) (W : Watcher) (st : Store) : Store :=
  mkStore (subs st) (<[w := W]> (watchers st)) (targetStack st)
    (evaluated st) (handled st) (callbacks st) (queue st).

Definition set_targetStack (s : list (option nat)) (st : Store) : Store :=
  mkStore (subs st) (watchers st) s (evaluated st) (handled st)
    (callbacks st) (queue st).

(** *** Dep *)

(** Modelled from the spec: [Dep.target], [pushTarget] and [popTarget] of
    [observer/dep], which the sources do not contain.  Activation is a
    stack; the active observer is its top. *)
Definition target (st : Store) : option nat :=
  match targetStack st with
  | t :: _ => t
  | [] => None
  end.

Definition pushTarget (t : option nat) (st : Store) : Store :=
  set_targetStack (t :: targetStack st) st.

Definition popTarget (st : Store) : Store :=
  set_targetStack (tail (targetStack st)) st.

(** Modelled from the spec: [dep.addSub (sub)] and [dep.removeSub (sub)];
    the subscribers are kept in insertion order, and removing takes out
    one occurrence. *)
Definition addSub (dep sub : nat) (st : Store) : Store :=
  set_subs (<[dep := (subs st !!! dep) ++ [sub]]> (subs st)) st.

Fixpoint remove_first (x : nat) (l : list nat) : list nat :=
  match l with
  | [] => []
  | y :: l => if decide (x = y) then l else y :: remove_first x l
  end.

Definition removeSub (dep sub : nat) (st : Store) : Store :=
  set_subs (<[dep := remove_first sub (subs st !!! dep)]> (subs st)) st.

(** Modelled from the spec: [handleError] reports and returns. *)
Definition handleError (e : JsError) (w : nat) (st : Store) : Store :=
  mkStore (subs st) (watchers st) (targetStack st) (evaluated st)
    (handled st ++ [(e, w)]) (callbacks st) (queue st).

(** Modelled from the spec: [queueWatcher] hands the watcher to the
    scheduler. *)
Definition queueWatcher (w : nat) (st : Store) : Store :=
  mkStore (subs st) (watchers st) (targetStack st) (evaluated st)
    (handled st) (callbacks st) (queue st ++ [w]).

(** *** Watcher *)

(** [watcher.addDep (dep)] *)
Definition addDep (w dep : nat) (st : Store) : Store :=
  let W := watchers st !!! w in
  if bool_decide (dep ∈ newDepIds W) then st
  else
    let W' :=
      mkWatcher (deep W) (user W) (lazy W) (sync W) (dirty W) (active W)
        (deps W) (newDeps W ++ [dep]) (depIds W) ({[ dep ]} ∪ newDepIds W)
        (value W) in
    let st := set_watcher w W' st in
    if bool_decide (dep ∈ depIds W) then st else addSub dep w st.

(** Modelled from the spec: [dep.depend ()] registers the active
    observer, if there is one. *)
Definition dep_depend (st : Store) (dep : nat) : Store :=
  match target st with
  | Some w => addDep w dep st
  | None => st
  end.

(** [watcher.cleanupDeps ()] *)
Definition cleanupDeps (w : nat) (st : Store) : Store :=
  let W := watchers st !!! w in
  let st :=
    foldl (λ st dep,
             if bool_decide (dep ∈ newDepIds W) then st
             else removeSub dep w st)
          st (reverse (deps W)) in
  let W := watchers st !!! w in
  set_watcher w
    (mkWatcher (deep W) (user W) (lazy W) (sync W) (dirty W) (active W)
       (newDeps W) [] (newDepIds W) ∅ (value W)) st.

Definition note_evaluated (w : nat) (st : Store) : Store :=
  mkStore (subs st) (watchers st) (targetStack st) (evaluated st ++ [w])
    (handled st) (callbacks st) (queue st).

(** [watcher.get ()]: the completion and the store afterwards. *)
Definition get (w : nat) (ev : Evaluation) (st : Store)
    : result JsVal * Store :=
  let st := pushTarget (Some w) st in
  let st := foldl dep_depend (note_evaluated w st) (reads ev) in
  let '(value, thrown, st) :=
    match outcome ev with
    | Ok v => (v, None, st)
    | Throw e =>
        if user (watchers st !!! w)
        then (JUndef, None, handleError e w st)
        else (JUndef, Some e, st)
    end in
  let st :=
    if deep (watchers st !!! w) then foldl dep_depend st (traverse value)
    else st in
  let st := popTarget st in
  let st := cleanupDeps w st in
  (match thrown with
   | None => Ok value
   | Some e => Throw e
   end, st).

Definition set_value (w : nat) (v : JsVal) (st : Store) : Store :=
  let W := watchers st !!! w in
  set_watcher w
    (mkWatcher (deep W) (user W) (lazy W) (sync W) (dirty W) (active W)
       (deps W) (newDeps W) (depIds W) (newDepIds W) v) st.

Definition set_dirty (w : nat) (b : bool) (st : Store) : Store :=
  let W := watchers st !!! w in
  set_watcher w
    (mkWatcher (deep W) (user W) (lazy W) (sync W) b (active W)
       (deps W) (newDeps W) (depIds W) (newDepIds W) (value W)) st.

Definition invoke_cb (w : nat) (v oldValue : JsVal) (st : Store) : Store :=
  mkStore (subs st) (watchers st) (targetStack st) (evaluated st)
    (handled st) (callbacks st ++ [(w, v, oldValue)]) (queue st).

(** [watcher.run ()]; [cbThrows] is the error the callback throws when it
    is invoked now, if it throws. *)
Definition run (w : nat) (ev : Evaluation) (cbThrows : option JsError)
    (st : Store) : result unit * Store :=
  if active (watchers st !!! w) then
    match get w ev st with
    | (Throw e, st) => (Throw e, st)
    | (Ok v, st) =>
        let W := watchers st !!! w in
        if negb (strict_eq v (value W)) || isObject v || deep W then
          let oldValue := value W in
          let st := set_value w v st in
          let st := invoke_cb w v oldValue st in
          if user W then
            (Ok (), match cbThrows with
                    | Some e => handleError e w st
                    | None => st
                    end)
          else
            (match cbThrows with
             | Some e => Throw e
             | None => Ok ()
             end, st)
        else (Ok (), st)
    end
  else (Ok (), st).

(** [watcher.update ()] *)
Definition update (w : nat) (ev : Evaluation) (cbThrows : option JsError)
    (st : Store) : result unit * Store :=
  let W := watchers st !!! w in
  if lazy W then (Ok (), set_dirty w true st)
  else if sync W then run w ev cbThrows st
  else (Ok (), queueWatcher w st).

(** [watcher.evaluate ()] *)
Definition evaluate (w : nat) (ev : Evaluation) (st : Store)
    : result unit * Store :=
  match get w ev st with
  | (Throw e, st) => (Throw e, st)
  | (Ok v, st) => (Ok (), set_dirty w false (set_value w v st))
  end.

(** [watcher.depend ()] *)
Definition depend (w : nat) (st : Store) : Store :=
  foldl dep_depend st (reverse (deps (watchers st !!! w))).

(** [computedGetter] as [createComputedGetter (key)] builds it; [watcher]
    is [this._computedWatchers && this._computedWatchers[key]]. *)
Definition computedGetter (watcher : option nat) (ev : Evaluation)
    (st : Store) : result JsVal * Store :=
  match watcher with
  | Some w =>
      let '(r, st) :=
        if dirty (watchers st !!! w) then evaluate w ev st
        else (Ok (), st) in
      match r with
      | Throw e => (Throw e, st)
      | Ok _ =>
          let st :=
            if bool_decide (is_Some (target st)) then depend w st else st in
          (Ok (value (watchers st !!! w)), st)
      end
  | None => (Ok JUndef, st)
  end.

(** Modelled from the spec: [remove (arr, item)] of [shared/util], which
    the sources do not contain, takes the first occurrence of the item
    out of the array. *)
Definition remove (arr : list nat) (item : nat) : list nat :=
  remove_first item arr.

(** [watcher.teardown ()] *)
Definition teardown (w : nat) (vm : Vm) (st : Store) : Vm * Store :=
  let W := watchers st !!! w in
  if active W then
    let vm :=
      if _isBeingDestroyed vm then vm
      else mkVm (remove (_watchers vm) w) (_isBeingDestroyed vm) in
    let st := foldl (λ st dep, removeSub dep w st) st (reverse (deps W)) in
    let W := watchers st !!! w in
    (vm, set_watcher w
           (mkWatcher (deep W) (user W) (lazy W) (sync W) (dirty W) false
              (deps W) (newDeps W) (depIds W) (newDepIds W) (value W)) st)
  else (vm, st).

(** [new Watcher (vm, expOrFn, cb, options)] with a function for
    [expOrFn]; [w] is the object under construction and [ev] what the
    getter does when the constructor invokes it.  The [_watcher] member a
    render watcher sets on its component is outside [Vm]. *)
Definition newWatcher (w : nat) (options : option Options.t)
    (ev : Evaluation) (vm : Vm) (st : Store) : result unit * Vm * Store :=
  let vm := mkVm (_watchers vm ++ [w]) (_isBeingDestroyed vm) in
  let flag (member : Options.t → bool) :=
    match options with
    | Some o => member o
    | None => false
    end in
  let W :=
    mkWatcher (flag Options.deep) (flag Options.user) (flag Options.lazy)
      (flag Options.sync) (flag Options.lazy) true [] [] ∅ ∅ JUndef in
  let st := set_watcher w W st in
  if lazy W then (Ok (), vm, st)
  else
    match get w ev st with
    | (Ok v, st) => (Ok (), vm, set_value w v st)
    | (Throw e, st) => (Throw e, vm, st)
    end.

(** [vm.$watch (expOrFn, cb, options)] with a function for [cb]; what it
    returns, [unwatchFn], is [teardown w]. *)
Definition watch (w : nat) (options : option Options.t) (ev : Evaluation)
    (cbThrows : option JsError) (vm : Vm) (st : Store)
    : result unit * Vm * Store :=
  let o := default (Options.mk false false false false false) options in
  let o :=
    Options.mk (Options.deep o) true (Options.lazy o) (Options.sync o)
      (Options.immediate o) in
  match newWatcher w (Some o) ev vm st with
  | (Throw e, vm, st) => (Throw e, vm, st)
  | (Ok _, vm, st) =>
      if Options.immediate o then
        let st := invoke_cb w (value (watchers st !!! w)) JUndef st in
        (Ok (), vm, match cbThrows with
                    | Some e => handleError e w st
                    | None => st
                    end)
      else (Ok (), vm, st)
  end.

(** What [getData] returns: the value of the data function, or a new
    empty object. *)
Inductive Data : Type :=
  | Returned (v : JsVal)
  | EmptyObject.

(** [getData (data, vm)] of [instance/state]; [ev] is what the data
    function does when it is called, and [who] stands for the component
    in the error report. *)
Definition getData (who : nat) (ev : Evaluation) (st : Store)
    : Data * Store :=
  let st := pushTarget None st in
  let st := foldl dep_depend st (reads ev) in
  let '(r, st) :=
    match outcome ev with
    | Ok v => (Returned v, st)
    | Throw e => (EmptyObject, handleError e who st)
    end in
  (r, popTarget st).

End Watchers.

(** *** Vocabulary of the statements below *)

(** What dependency collection leaves alone in a watcher. *)
Definition settings (W : Watcher) : bool * bool * bool * bool * bool * bool * JsVal :=
  (deep W, user W, lazy W, sync W, dirty W, active W, value W).

(** The current generation of tracked Deps. *)
Definition generation (W : Watcher) : list nat * gset nat :=
  (deps W, depIds W).

(** The value [get] passes to [traverse]: the getter's, or undefined when
    it threw. *)
Definition got (ev : Evaluation) : JsVal :=
  match outcome ev with
  | Ok v => v
  | Throw _ => JUndef
  end.

(** The Deps read during an evaluation, deep traversal included. *)
Definition all_reads (traverse : JsVal → list nat) (W : Watcher)
    (ev : Evaluation) : list nat :=
  reads ev ++ if deep W then traverse (got ev) else [].

(** One pass of the loop of [cleanupDeps]. *)
Definition unsubscribe (w : nat) (keep : gset nat) (st : Store) (dep : nat)
    : Store :=
  if bool_decide (dep ∈ keep) then st else removeSub dep w st.

(** Whether [get] reports the getter's error: it does for a user
    watcher. *)
Definition reported (W : Watcher) (ev : Evaluation) : option JsError :=
  match outcome ev with
  | Throw e => if user W then Some e else None
  | Ok _ => None
  end.

(** How [get] completes. *)
Definition completion (W : Watcher) (ev : Evaluation) : result JsVal :=
  match outcome ev with
  | Ok v => Ok v
  | Throw e => if user W then Ok JUndef else Throw e
  end.

(** [if (Dep.target) watcher.depend()] *)
Definition depend_if_active (w : nat) (st : Store) : Store :=
  if bool_decide (is_Some (target st)) then depend w st else st.

(** The subscriber lists and the Dep lists mirror each other at [w]: no
    generation is pending, [deps] and [depIds] hold the same Deps once,
    [w] is a subscriber of exactly these, and no subscriber list holds a
    watcher twice. *)
Definition mirrored (w : nat) (st : Store) : Prop :=
  let W := watchers st !!! w in
  newDeps W = [] ∧ newDepIds W = ∅ ∧ NoDup (deps W) ∧
  (∀ d, d ∈ deps W ↔ d ∈ depIds W) ∧
  (∀ d, w ∈ subs st !!! d ↔ d ∈ depIds W) ∧
  (∀ d, NoDup (subs st !!! d)).

(** The watcher the constructor sets up before it evaluates. *)
Definition fresh_watcher (o : Options.t) : Watcher :=
  mkWatcher (Options.deep o) (Options.user o) (Options.lazy o)
    (Options.sync o) (Options.lazy o) true [] [] ∅ ∅ JUndef.

(** The options [$watch] hands to the constructor: [options || {}] with
    [user] set. *)
Definition watch_options (options : option Options.t) : Options.t :=
  let o := default (Options.mk false false false false false) options in
  Options.mk (Options.deep o) true (Options.lazy o) (Options.sync o)
    (Options.immediate o).

(** What the watcher of [$watch] holds once constructed. *)
Definition first_value (o : Options.t) (ev : Evaluation) : JsVal :=
  if Options.lazy o then JUndef else got ev.

(** *** An example store *)

Local Open Scope nat_scope.

(** No deep traversal reaches a Dep. *)
Definition shallow (v : JsVal) : list nat := [].

(** Watcher 1 is the lazy watcher of a computed property, dirty, holding
    the Deps 10 and 11 from its last evaluation; watcher 2 is a render
    watcher in the middle of its evaluation; watcher 3 is a user
    watcher. *)
Definition computed_watcher : Watcher :=
  mkWatcher false false true false true true [10; 11] [] {[10; 11]} ∅
    (JNum 1).

Definition render_watcher : Watcher :=
  mkWatcher false false false false false true [] [] ∅ ∅ JUndef.

Definition user_watcher : Watcher :=
  mkWatcher false true false true false true [] [] ∅ ∅ (JNum 1).

Definition example_store : Store :=
  mkStore {[10 := [1]; 11 := [1]]}
    {[1 := computed_watcher; 2 := render_watcher; 3 := user_watcher]}
    [Some 2] [] [] [] [].

(** The computed getter now reads the Deps 10 and 12 and returns 5. *)
Definition reads_10_12 : Evaluation := mkEvaluation [10; 12] (Ok (JNum 5)).

(** A getter that reads the Dep 10 and throws. *)
Definition throws_after_10 : Evaluation :=
  mkEvaluation [10] (Throw (UserError (JStr "boom"))).

(** The component of the example store. *)
Definition example_vm : Vm := mkVm [1; 2; 3] false.

Local Close Scope nat_scope.

(** *** Subscriber lists *)

Lemma if_bool_decide_ext {A} (P Q : Prop) `{!Decision P, !Decision Q}
    (x y : A) :
  (P ↔ Q) →
  (if bool_decide P then x else y) = (if bool_decide Q then x else y).
Proof. intros H. by rewrite (bool_decide_ext P Q H). Qed.

Lemma elem_of_remove_first_ne (x y : nat) (l : list nat) :
  y ≠ x → y ∈ remove_first x l ↔ y ∈ l.
Proof.
  intros Hne. induction l as [|z l IH]; simpl; [done|].
  case_decide as Hz.
  - subst z. rewrite elem_of_cons. naive_solver.
  - rewrite !elem_of_cons, IH. done.
Qed.

Lemma not_elem_of_remove_first (x : nat) (l : list nat) :
  NoDup l → x ∉ remove_first x l.
Proof.
  induction 1 as [|z l Hz Hl IH]; simpl; [by apply not_elem_of_nil|].
  case_decide as Hx.
  - by subst z.
  - rewrite elem_of_cons. naive_solver.
Qed.

(** *** [addDep] *)

Lemma addDep_fields (w dep : nat) (st : Store) :
  targetStack (addDep w dep st) = targetStack st ∧ evaluated (addDep w dep st) = evaluated st ∧
    handled (addDep w dep st) = handled st ∧ callbacks (addDep w dep st) = callbacks st ∧
    queue (addDep w dep st) = queue st.
Proof.
  unfold addDep. simpl.
  repeat case_bool_decide; done.
Qed.

Lemma addDep_other (w dep x : nat) (st : Store) :
  x ≠ w → watchers (addDep w dep st) !!! x = watchers st !!! x.
Proof.
  intros Hne. unfold addDep.
  repeat case_bool_decide; simpl; try done;
    by rewrite lookup_total_insert_ne.
Qed.

Lemma addDep_self (w dep : nat) (st : Store) :
  let W := watchers st !!! w in
  let W' := watchers (addDep w dep st) !!! w in
  settings W' = settings W ∧ generation W' = generation W ∧
  newDepIds W' = {[ dep ]} ∪ newDepIds W ∧
  newDeps W' =
    if bool_decide (dep ∈ newDepIds W) then newDeps W else newDeps W ++ [dep].
Proof.
  unfold addDep. simpl.
  case_bool_decide as Hnew.
  - repeat split; try done. set_solver.
  - case_bool_decide; simpl; by rewrite lookup_total_insert_eq.
Qed.

Lemma addDep_subs (w dep d : nat) (st : Store) :
  let W := watchers st !!! w in
  subs (addDep w dep st) !!! d =
    if bool_decide (d = dep ∧ dep ∉ newDepIds W ∧ dep ∉ depIds W)
    then subs st !!! d ++ [w]
    else subs st !!! d.
Proof.
  unfold addDep. simpl.
  case_bool_decide as Hnew.
  - rewrite bool_decide_eq_false_2; [done | naive_solver].
  - case_bool_decide as Hold; simpl.
    + rewrite bool_decide_eq_false_2; [done | naive_solver].
    + case_bool_decide as Hd.
      * destruct Hd as (-> & _). by rewrite lookup_total_insert_eq.
      * rewrite lookup_total_insert_ne; [done | naive_solver].
Qed.

(** *** Collecting the reads of an evaluation *)

Lemma dep_depend_target (st : Store) (dep : nat) :
  targetStack (dep_depend st dep) = targetStack st.
Proof.
  unfold dep_depend. destruct (target st); [|done]. apply addDep_fields.
Qed.

Lemma collect_fields (l : list nat) :
  ∀ st,
    targetStack (foldl dep_depend st l) = targetStack st ∧ evaluated (foldl dep_depend st l) = evaluated st ∧
    handled (foldl dep_depend st l) = handled st ∧ callbacks (foldl dep_depend st l) = callbacks st ∧
    queue (foldl dep_depend st l) = queue st.
Proof.
  induction l as [|d l IH]; intros st; simpl; [done|].
  destruct (IH (dep_depend st d)) as (-> & -> & -> & -> & ->).
  unfold dep_depend. destruct (target st); [|done]. apply addDep_fields.
Qed.

Lemma collect_settings (l : list nat) :
  ∀ st x, let st' := foldl dep_depend st l in
    settings (watchers st' !!! x) = settings (watchers st !!! x) ∧
    generation (watchers st' !!! x) = generation (watchers st !!! x).
Proof.
  induction l as [|d l IH]; intros st x; simpl; [done|].
  destruct (IH (dep_depend st d) x) as (-> & ->).
  unfold dep_depend. destruct (target st) as [w|]; [|done].
  destruct (decide (x = w)) as [->|Hne].
  - destruct (addDep_self w d st) as (-> & -> & _). done.
  - by rewrite addDep_other.
Qed.

Lemma collect_other (l : list nat) :
  ∀ st w x, target st = Some w → x ≠ w →
    watchers (foldl dep_depend st l) !!! x = watchers st !!! x.
Proof.
  induction l as [|d l IH]; intros st w x Ht Hne; simpl; [done|].
  rewrite (IH _ w); [| |done].
  - unfold dep_depend. rewrite Ht. by apply addDep_other.
  - unfold target. by rewrite dep_depend_target.
Qed.

(** After the reads [l], with [w] the active observer: the pending
    generation holds what it held plus [l], without repetition, and [w]
    was appended to the subscribers of the Deps that are new to both
    generations. *)
Lemma collect_pending (l : list nat) :
  ∀ st w, target st = Some w →
    let W := watchers st !!! w in
    let st' := foldl dep_depend st l in
    let W' := watchers st' !!! w in
    newDepIds W' = newDepIds W ∪ list_to_set l ∧
    ((∀ d, d ∈ newDeps W ↔ d ∈ newDepIds W) →
     (∀ d, d ∈ newDeps W' ↔ d ∈ newDepIds W')) ∧
    ((∀ d, d ∈ newDeps W ↔ d ∈ newDepIds W) → NoDup (newDeps W) →
     NoDup (newDeps W')) ∧
    (∀ d, subs st' !!! d =
       if bool_decide (d ∈ l ∧ d ∉ newDepIds W ∧ d ∉ depIds W)
       then subs st !!! d ++ [w]
       else subs st !!! d).
Proof.
  induction l as [|a l IH]; intros st w Ht; cbn [foldl].
  { split; [set_solver|]. split; [done|]. split; [done|].
    intros d. rewrite bool_decide_eq_false_2; [done|].
    intros (Hd & _). by apply not_elem_of_nil in Hd. }
  assert (dep_depend st a = addDep w a st) as Hstep
    by (unfold dep_depend; by rewrite Ht).
  rewrite Hstep.
  assert (target (addDep w a st) = Some w) as Ht'.
  { unfold target. destruct (addDep_fields w a st) as (-> & _). done. }
  destruct (IH _ w Ht') as (Hids & Hcons & Hnodup & Hsubs).
  destruct (addDep_self w a st) as (_ & Hgen & Hids1 & Hdeps1).
  assert ((∀ d, d ∈ newDeps (watchers st !!! w) ↔ d ∈ newDepIds (watchers st !!! w)) →
          ∀ d, d ∈ newDeps (watchers (addDep w a st) !!! w)
               ↔ d ∈ newDepIds (watchers (addDep w a st) !!! w)) as Hcons1.
  { intros Hc d. rewrite Hids1, Hdeps1. case_bool_decide as Ha.
    - rewrite Hc. clear -Ha. set_solver.
    - rewrite elem_of_app, list_elem_of_singleton, Hc. clear. set_solver. }
  split; [|split; [|split]].
  - rewrite Hids, Hids1. clear. set_solver.
  - intros Hc. by apply Hcons, Hcons1.
  - intros Hc Hnd. apply Hnodup; [by apply Hcons1|].
    rewrite Hdeps1. case_bool_decide as Ha; [done|].
    apply NoDup_app. repeat split; [done | | apply NoDup_singleton].
    intros d Hd ->%list_elem_of_singleton. apply Ha. by apply Hc.
  - intros d. rewrite Hsubs, addDep_subs, Hids1.
    injection Hgen as _ ->.
    destruct (decide (d = a)) as [->|Hne].
    + rewrite (bool_decide_eq_false_2 (a ∈ l ∧ _)).
      * apply if_bool_decide_ext. rewrite elem_of_cons. clear. naive_solver.
      * rewrite elem_of_union, elem_of_singleton. clear. naive_solver.
    + rewrite (bool_decide_eq_false_2 (d = a ∧ _)) by (clear -Hne; naive_solver).
      apply if_bool_decide_ext.
      rewrite elem_of_cons, elem_of_union, elem_of_singleton.
      clear -Hne. naive_solver.
Qed.

(** *** [cleanupDeps] *)

Lemma unsubscribe_fields (w : nat) (keep : gset nat) (l : list nat) :
  ∀ st,
    watchers (foldl (unsubscribe w keep) st l) = watchers st ∧
    targetStack (foldl (unsubscribe w keep) st l) = targetStack st ∧ evaluated (foldl (unsubscribe w keep) st l) = evaluated st ∧
    handled (foldl (unsubscribe w keep) st l) = handled st ∧ callbacks (foldl (unsubscribe w keep) st l) = callbacks st ∧
    queue (foldl (unsubscribe w keep) st l) = queue st.
Proof.
  induction l as [|a l IH]; intros st; simpl; [done|].
  destruct (IH (unsubscribe w keep st a)) as (-> & -> & -> & -> & -> & ->).
  unfold unsubscribe. by case_bool_decide.
Qed.

Lemma unsubscribe_others (w : nat) (keep : gset nat) (l : list nat) :
  ∀ st x d, x ≠ w →
    x ∈ subs (foldl (unsubscribe w keep) st l) !!! d ↔ x ∈ subs st !!! d.
Proof.
  induction l as [|a l IH]; intros st x d Hne; simpl; [done|].
  rewrite IH by done. unfold unsubscribe. case_bool_decide; [done|]. simpl.
  destruct (decide (d = a)) as [->|Hd].
  - rewrite lookup_total_insert_eq. by apply elem_of_remove_first_ne.
  - by rewrite lookup_total_insert_ne.
Qed.

Lemma unsubscribe_subs (w : nat) (keep : gset nat) (l : list nat) :
  ∀ st d, NoDup l →
    subs (foldl (unsubscribe w keep) st l) !!! d =
      if bool_decide (d ∈ l ∧ d ∉ keep)
      then remove_first w (subs st !!! d)
      else subs st !!! d.
Proof.
  induction l as [|a l IH]; intros st d Hnd; cbn [foldl].
  { rewrite bool_decide_eq_false_2; [done|].
    intros (Hd & _). by apply not_elem_of_nil in Hd. }
  apply NoDup_cons in Hnd as (Ha & Hnd). rewrite IH by done.
  unfold unsubscribe. destruct (decide (a ∈ keep)) as [Hkeep|Hkeep].
  - rewrite (bool_decide_eq_true_2 (a ∈ keep)) by done.
    apply if_bool_decide_ext. rewrite elem_of_cons.
    clear -Hkeep. naive_solver.
  - rewrite (bool_decide_eq_false_2 (a ∈ keep)) by done.
    simpl. destruct (decide (d = a)) as [->|Hd].
    + rewrite lookup_total_insert_eq.
      rewrite (bool_decide_eq_false_2 (a ∈ l ∧ _)) by (clear -Ha; naive_solver).
      rewrite bool_decide_eq_true_2; [done|].
      split; [apply list_elem_of_here | done].
    + rewrite lookup_total_insert_ne by done.
      apply if_bool_decide_ext. rewrite elem_of_cons.
      clear -Hd. naive_solver.
Qed.

Lemma cleanupDeps_unfold (w : nat) (st : Store) :
  let W := watchers st !!! w in
  cleanupDeps w st =
    set_watcher w
      (mkWatcher (deep W) (user W) (lazy W) (sync W) (dirty W) (active W)
         (newDeps W) [] (newDepIds W) ∅ (value W))
      (foldl (unsubscribe w (newDepIds W)) st (reverse (deps W))).
Proof.
  unfold cleanupDeps. simpl.
  destruct (unsubscribe_fields w (newDepIds (watchers st !!! w))
              (reverse (deps (watchers st !!! w))) st) as (Hw & _).
  unfold unsubscribe in Hw. by rewrite Hw.
Qed.

Lemma cleanupDeps_fields (w : nat) (st : Store) :
  targetStack (cleanupDeps w st) = targetStack st ∧ evaluated (cleanupDeps w st) = evaluated st ∧
    handled (cleanupDeps w st) = handled st ∧ callbacks (cleanupDeps w st) = callbacks st ∧
    queue (cleanupDeps w st) = queue st.
Proof.
  rewrite cleanupDeps_unfold. simpl.
  destruct (unsubscribe_fields w (newDepIds (watchers st !!! w))
              (reverse (deps (watchers st !!! w))) st) as (_ & H).
  exact H.
Qed.

Lemma cleanupDeps_self (w : nat) (st : Store) :
  let W := watchers st !!! w in
  let W' := watchers (cleanupDeps w st) !!! w in
  settings W' = settings W ∧
  deps W' = newDeps W ∧ depIds W' = newDepIds W ∧
  newDeps W' = [] ∧ newDepIds W' = ∅.
Proof.
  rewrite cleanupDeps_unfold. simpl. by rewrite lookup_total_insert_eq.
Qed.

Lemma cleanupDeps_other (w x : nat) (st : Store) :
  x ≠ w → watchers (cleanupDeps w st) !!! x = watchers st !!! x.
Proof.
  intros Hne. rewrite cleanupDeps_unfold. simpl.
  rewrite lookup_total_insert_ne by done.
  destruct (unsubscribe_fields w (newDepIds (watchers st !!! w))
              (reverse (deps (watchers st !!! w))) st) as (-> & _).
  done.
Qed.

Lemma cleanupDeps_others (w x d : nat) (st : Store) :
  x ≠ w → x ∈ subs (cleanupDeps w st) !!! d ↔ x ∈ subs st !!! d.
Proof.
  intros Hne. rewrite cleanupDeps_unfold. simpl.
  by apply unsubscribe_others.
Qed.

Lemma cleanupDeps_subs (w d : nat) (st : Store) :
  let W := watchers st !!! w in
  NoDup (deps W) →
  subs (cleanupDeps w st) !!! d =
    if bool_decide (d ∈ deps W ∧ d ∉ newDepIds W)
    then remove_first w (subs st !!! d)
    else subs st !!! d.
Proof.
  intros W Hnd. rewrite cleanupDeps_unfold. simpl.
  rewrite unsubscribe_subs by (by rewrite reverse_Permutation).
  apply if_bool_decide_ext. by rewrite elem_of_reverse.
Qed.

(** *** [get] *)

Lemma dep_depend_handleError (e : JsError) (w : nat) (st : Store) (d : nat) :
  dep_depend (handleError e w st) d = handleError e w (dep_depend st d).
Proof.
  unfold dep_depend, target. simpl.
  destruct (targetStack st) as [|[t|] ?]; try done.
  unfold addDep. simpl. repeat case_bool_decide; done.
Qed.

Lemma collect_handleError (e : JsError) (w : nat) (l : list nat) :
  ∀ st, foldl dep_depend (handleError e w st) l
        = handleError e w (foldl dep_depend st l).
Proof.
  induction l as [|d l IH]; intros st; simpl; [done|].
  by rewrite dep_depend_handleError, IH.
Qed.

Lemma get_unfold (traverse : JsVal → list nat) (w : nat) (ev : Evaluation)
    (st : Store) :
  let W := watchers st !!! w in
  let collected :=
    foldl dep_depend (note_evaluated w (pushTarget (Some w) st))
      (all_reads traverse W ev) in
  get traverse w ev st =
    (completion W ev,
     cleanupDeps w (popTarget
       match reported W ev with
       | Some e => handleError e w collected
       | None => collected
       end)).
Proof.
  intros W collected. unfold get.
  set (st0 := note_evaluated w (pushTarget (Some w) st)).
  assert (∀ l, settings (watchers (foldl dep_depend st0 l) !!! w) = settings W)
    as Hset by (intros l; by destruct (collect_settings l st0 w) as (-> & _)).
  assert (user (watchers (foldl dep_depend st0 (reads ev)) !!! w) = user W
          ∧ deep (watchers (foldl dep_depend st0 (reads ev)) !!! w) = deep W)
    as (Hu & Hd).
  { specialize (Hset (reads ev)). unfold settings in Hset.
    injection Hset as -> -> _ _ _ _ _. done. }
  subst collected. unfold all_reads, completion, reported, got.
  rewrite foldl_app. fold st0.
  destruct (outcome ev) as [v|e]; simpl.
  - rewrite Hd. by destruct (deep W); rewrite ?app_nil_r.
  - rewrite Hu. destruct (user W); simpl; rewrite Hd.
    + destruct (deep W); simpl; [|done]. by rewrite collect_handleError.
    + by destruct (deep W).
Qed.

Section GetFacts.

Variable traverse : JsVal → list nat.
Variables (w : nat) (ev : Evaluation) (st : Store).

Let W := watchers st !!! w.
Let st0 := note_evaluated w (pushTarget (Some w) st).
Let collected := foldl dep_depend st0 (all_reads traverse W ev).
Let st' := (get traverse w ev st).2.

Lemma get_store :
  st' = cleanupDeps w (popTarget
          match reported W ev with
          | Some e => handleError e w collected
          | None => collected
          end).
Proof. subst st'. by rewrite get_unfold. Qed.

Lemma get_completion : (get traverse w ev st).1 = completion W ev.
Proof. by rewrite get_unfold. Qed.

Lemma get_fields :
  targetStack st' = targetStack st ∧
  evaluated st' = evaluated st ++ [w] ∧
  handled st' = handled st ++
    match reported W ev with
    | Some e => [(e, w)]
    | None => []
    end ∧
  callbacks st' = callbacks st ∧ queue st' = queue st.
Proof.
  rewrite get_store.
  set (stH := match reported W ev with
              | Some e => handleError e w collected
              | None => collected
              end).
  destruct (cleanupDeps_fields w (popTarget stH)) as (-> & -> & -> & -> & ->).
  destruct (collect_fields (all_reads traverse W ev) st0)
    as (Ht0 & He0 & Hh0 & Hc0 & Hq0).
  fold collected in Ht0, He0, Hh0, Hc0, Hq0. subst stH.
  destruct (reported W ev); simpl; rewrite ?Ht0, ?He0, ?Hh0, ?Hc0, ?Hq0;
    by rewrite ?app_nil_r.
Qed.

Lemma get_watchers_before_cleanup :
  watchers (popTarget
              match reported W ev with
              | Some e => handleError e w collected
              | None => collected
              end) = watchers collected ∧
  subs (popTarget
          match reported W ev with
          | Some e => handleError e w collected
          | None => collected
          end) = subs collected.
Proof. by destruct (reported W ev). Qed.

Lemma get_settings (x : nat) :
  settings (watchers st' !!! x) = settings (watchers st !!! x).
Proof.
  rewrite get_store.
  destruct get_watchers_before_cleanup as (Hw & _).
  destruct (decide (x = w)) as [->|Hne].
  - destruct (cleanupDeps_self w (popTarget
                match reported W ev with
                | Some e => handleError e w collected
                | None => collected
                end)) as (-> & _).
    rewrite Hw. unfold collected.
    by destruct (collect_settings (all_reads traverse W ev) st0 w)
      as (-> & _).
  - rewrite cleanupDeps_other by done. rewrite Hw. unfold collected.
    by destruct (collect_settings (all_reads traverse W ev) st0 x) as (-> & _).
Qed.

Lemma get_other_watcher (x : nat) :
  x ≠ w → watchers st' !!! x = watchers st !!! x.
Proof.
  intros Hne. rewrite get_store, cleanupDeps_other by done.
  destruct get_watchers_before_cleanup as (-> & _).
  unfold collected. by rewrite (collect_other _ st0 w x).
Qed.

Lemma get_other_subscribers (x d : nat) :
  x ≠ w → x ∈ subs st' !!! d ↔ x ∈ subs st !!! d.
Proof.
  intros Hne. rewrite get_store, cleanupDeps_others by done.
  destruct get_watchers_before_cleanup as (_ & ->).
  destruct (collect_pending (all_reads traverse W ev) st0 w eq_refl)
    as (_ & _ & _ & Hsubs).
  fold collected in Hsubs. rewrite Hsubs. case_bool_decide; [|done].
  rewrite elem_of_app, list_elem_of_singleton. simpl. naive_solver.
Qed.

(** The generations after [get], in terms of the store before it. *)
Lemma get_generations :
  let W' := watchers st' !!! w in
  deps W' = newDeps (watchers collected !!! w) ∧
  depIds W' = newDepIds W ∪ list_to_set (all_reads traverse W ev) ∧
  newDeps W' = [] ∧ newDepIds W' = ∅.
Proof.
  intros W'. subst W'. rewrite get_store.
  destruct (cleanupDeps_self w (popTarget
              match reported W ev with
              | Some e => handleError e w collected
              | None => collected
              end)) as (_ & -> & -> & -> & ->).
  destruct get_watchers_before_cleanup as (-> & _).
  destruct (collect_pending (all_reads traverse W ev) st0 w eq_refl)
    as (Hids & _).
  done.
Qed.

Lemma get_subs (d : nat) :
  newDepIds W = ∅ → NoDup (deps W) →
  subs st' !!! d =
    if bool_decide (d ∈ all_reads traverse W ev) then
      if bool_decide (d ∈ depIds W) then subs st !!! d
      else subs st !!! d ++ [w]
    else
      if bool_decide (d ∈ deps W) then remove_first w (subs st !!! d)
      else subs st !!! d.
Proof.
  intros Hq Hnd. rewrite get_store.
  destruct (collect_pending (all_reads traverse W ev) st0 w eq_refl)
    as (Hids & _ & _ & Hsubs).
  destruct (collect_settings (all_reads traverse W ev) st0 w) as (_ & Hgen).
  fold collected in Hids, Hsubs, Hgen. injection Hgen as Hdeps _.
  change (watchers st0 !!! w) with W in *.
  change (subs st0) with (subs st) in *.
  destruct get_watchers_before_cleanup as (Hw & Hs).
  rewrite cleanupDeps_subs; rewrite Hw, ?Hs, Hdeps; [|done].
  rewrite Hids, Hq, Hsubs, Hq.
  destruct (decide (d ∈ all_reads traverse W ev)) as [Hin|Hin].
  - rewrite (bool_decide_eq_true_2 (d ∈ all_reads traverse W ev)) by done.
    rewrite (bool_decide_eq_false_2 (d ∈ deps W ∧ _))
      by (clear -Hin; set_solver).
    destruct (decide (d ∈ depIds W)) as [Hold|Hold].
    + rewrite (bool_decide_eq_true_2 (d ∈ depIds W)) by done.
      rewrite bool_decide_eq_false_2; [done | clear -Hold; naive_solver].
    + rewrite (bool_decide_eq_false_2 (d ∈ depIds W)) by done.
      rewrite bool_decide_eq_true_2; [done | clear -Hin Hold; set_solver].
  - rewrite (bool_decide_eq_false_2 (d ∈ all_reads traverse W ev)) by done.
    rewrite (bool_decide_eq_false_2 (d ∈ all_reads traverse W ev ∧ _))
      by (clear -Hin; naive_solver).
    apply if_bool_decide_ext. clear -Hin. set_solver.
Qed.

End GetFacts.

(** The subscriptions [depend] relies on are re-established by [get]: a
    watcher that was subscribed to the Deps of its current generation is
    subscribed to those of the new one. *)
Lemma get_keeps_subscribed (traverse : JsVal → list nat) (w : nat)
    (ev : Evaluation) (st : Store) :
  let W := watchers st !!! w in
  let st' := (get traverse w ev st).2 in
  let W' := watchers st' !!! w in
  newDepIds W = ∅ → NoDup (deps W) →
  (∀ d, d ∈ depIds W → w ∈ subs st !!! d) →
  ∀ d, d ∈ depIds W' ∨ d ∈ newDepIds W' → w ∈ subs st' !!! d.
Proof.
  intros W st' W' Hids Hnd Hsub d Hd.
  destruct (get_generations traverse w ev st) as (_ & HdepIds & _ & Hi).
  fold W st' W' in HdepIds, Hi. rewrite HdepIds, Hi, Hids in Hd.
  assert (d ∈ all_reads traverse W ev) as Hr by (clear -Hd; set_solver).
  subst st'. rewrite get_subs by done. fold W.
  rewrite (bool_decide_eq_true_2 _ Hr).
  case_bool_decide as Hold; [by apply Hsub|].
  rewrite elem_of_app, list_elem_of_singleton. by right.
Qed.

(** After [get] on a watcher without pending generation, the current
    generation holds exactly the Deps read, once each. *)
Lemma get_deps_exact (traverse : JsVal → list nat) (w : nat)
    (ev : Evaluation) (st : Store) :
  let W := watchers st !!! w in
  let read := all_reads traverse W ev in
  let W' := watchers (get traverse w ev st).2 !!! w in
  newDeps W = [] → newDepIds W = ∅ →
  (∀ d, d ∈ deps W' ↔ d ∈ read) ∧ NoDup (deps W') ∧
  (∀ d, d ∈ depIds W' ↔ d ∈ read) ∧
  newDeps W' = [] ∧ newDepIds W' = ∅.
Proof.
  intros W read W' Hnew Hids.
  destruct (get_generations traverse w ev st) as (Hdeps & HdepIds & Hn & Hi).
  fold W read W' in Hdeps, HdepIds, Hn, Hi.
  set (st0 := note_evaluated w (pushTarget (Some w) st)) in *.
  destruct (collect_pending read st0 w eq_refl) as (Hcids & Hcons & Hcnd & _).
  change (watchers st0 !!! w) with W in *.
  rewrite Hids in HdepIds, Hcids.
  assert (∀ d, d ∈ newDeps W ↔ d ∈ newDepIds W) as Hempty.
  { intros d. rewrite Hnew, Hids. clear. set_solver. }
  split; [|split; [|split]].
  - intros d. rewrite Hdeps, (Hcons Hempty), Hcids. clear. set_solver.
  - rewrite Hdeps. apply Hcnd; [done|]. rewrite Hnew. apply NoDup_nil_2.
  - intros d. rewrite HdepIds. clear. set_solver.
  - done.
Qed.

(** *** The claims about [get] and [run] *)

(** C4: after [get], on a watcher whose pending generation was empty, the
    current generation ([deps] and [depIds]) holds exactly the Deps read
    during the evaluation, the pending generation is empty again, and the
    watcher was taken out ([removeSub]) of the subscribers of every Dep of
    the previous generation that was not read: it is no longer subscribed
    to it, while it is subscribed to every Dep it read. *)
Theorem get_tracks_exactly_the_reads (traverse : JsVal → list nat)
    (w : nat) (ev : Evaluation) (st : Store) :
  let W := watchers st !!! w in
  let read := all_reads traverse W ev in
  let st' := (get traverse w ev st).2 in
  let W' := watchers st' !!! w in
  newDeps W = [] → newDepIds W = ∅ → NoDup (deps W) →
  (∀ d, d ∈ deps W' ↔ d ∈ read) ∧ NoDup (deps W') ∧
  depIds W' = list_to_set read ∧
  newDeps W' = [] ∧ newDepIds W' = ∅ ∧
  (∀ d, d ∈ deps W → d ∉ read →
        subs st' !!! d = remove_first w (subs st !!! d)) ∧
  (∀ d, d ∈ deps W → d ∉ read → NoDup (subs st !!! d) →
        w ∉ subs st' !!! d) ∧
  (∀ d, d ∈ read → (d ∈ depIds W → w ∈ subs st !!! d) →
        w ∈ subs st' !!! d).
Proof.
  intros W read st' W' Hnew Hids Hnd.
  destruct (get_generations traverse w ev st) as (Hdeps & HdepIds & Hn & Hi).
  fold W read st' W' in Hdeps, HdepIds, Hn, Hi.
  set (st0 := note_evaluated w (pushTarget (Some w) st)) in *.
  destruct (collect_pending read st0 w eq_refl) as (Hcids & Hcons & Hcnd & _).
  change (watchers st0 !!! w) with W in *.
  rewrite Hids in HdepIds, Hcids.
  assert (∀ d, d ∈ deps W' ↔ d ∈ read) as Hexact.
  { intros d. rewrite Hdeps, Hcons, Hcids.
    - clear. set_solver.
    - intros d'. rewrite Hnew, Hids. clear. set_solver. }
  assert (∀ d, d ∈ deps W → d ∉ read →
               subs st' !!! d = remove_first w (subs st !!! d)) as Hgone.
  { intros d Hd Hr. subst st'. rewrite get_subs by done. fold W read.
    rewrite (bool_decide_eq_false_2 (d ∈ read)) by done.
    by rewrite (bool_decide_eq_true_2 (d ∈ deps W)). }
  repeat split; try done.
  - by apply Hexact.
  - by apply Hexact.
  - rewrite Hdeps. apply Hcnd; [|rewrite Hnew; apply NoDup_nil_2].
    intros d. rewrite Hnew, Hids. clear. set_solver.
  - rewrite HdepIds. clear. set_solver.
  - intros d Hd Hr Hsubs. rewrite Hgone by done.
    by apply not_elem_of_remove_first.
  - intros d Hr Hsub. subst st'. rewrite get_subs by done. fold W read.
    rewrite (bool_decide_eq_true_2 (d ∈ read)) by done.
    case_bool_decide as Hold; [by apply Hsub|].
    rewrite elem_of_app, list_elem_of_singleton. by right.
Qed.

(** C7: when the getter throws inside [get], a user watcher hands the
    error to [handleError] and [get] returns (undefined), any other
    watcher rethrows it; either way the stack of active observers is as
    before the call, so the outer observer is [Dep.target] again, and
    [cleanupDeps] has run: the pending generation was moved to the current
    one and cleared; the watcher was taken out of the subscribers of every
    Dep of the previous generation that was not read before the throw and
    is a subscriber of every Dep that was read; and the current generation
    holds exactly the Deps read, once each. *)
Theorem get_when_getter_throws (traverse : JsVal → list nat)
    (w : nat) (ev : Evaluation) (st : Store) (e : JsError) :
  let W := watchers st !!! w in
  let r := (get traverse w ev st).1 in
  let st' := (get traverse w ev st).2 in
  let W' := watchers st' !!! w in
  outcome ev = Throw e →
  (user W = true → r = Ok JUndef ∧ handled st' = handled st ++ [(e, w)]) ∧
  (user W = false → r = Throw e ∧ handled st' = handled st) ∧
  targetStack st' = targetStack st ∧ target st' = target st ∧
  depIds W' = newDepIds W ∪ list_to_set (all_reads traverse W ev) ∧
  newDeps W' = [] ∧ newDepIds W' = ∅ ∧
  (newDepIds W = ∅ → NoDup (deps W) →
     ∀ d, subs st' !!! d =
            if bool_decide (d ∈ all_reads traverse W ev) then
              if bool_decide (d ∈ depIds W) then subs st !!! d
              else subs st !!! d ++ [w]
            else
              if bool_decide (d ∈ deps W) then remove_first w (subs st !!! d)
              else subs st !!! d) ∧
  (newDeps W = [] → newDepIds W = ∅ →
     (∀ d, d ∈ deps W' ↔ d ∈ all_reads traverse W ev) ∧ NoDup (deps W')).
Proof.
  intros W r st' W' Hthrow.
  assert (newDepIds W = ∅ → NoDup (deps W) →
          ∀ d, subs st' !!! d =
                 if bool_decide (d ∈ all_reads traverse W ev) then
                   if bool_decide (d ∈ depIds W) then subs st !!! d
                   else subs st !!! d ++ [w]
                 else
                   if bool_decide (d ∈ deps W)
                   then remove_first w (subs st !!! d)
                   else subs st !!! d) as Hsubs
    by (intros Hids0 Hnd d; by apply get_subs).
  assert (newDeps W = [] → newDepIds W = ∅ →
          (∀ d, d ∈ deps W' ↔ d ∈ all_reads traverse W ev)
          ∧ NoDup (deps W')) as Hexact.
  { intros Hnew0 Hids0.
    destruct (get_deps_exact traverse w ev st Hnew0 Hids0) as (? & ? & _).
    by split. }
  destruct (get_fields traverse w ev st) as (Hstack & _ & Hhandled & _).
  destruct (get_generations traverse w ev st) as (_ & Hids & Hn & Hi).
  fold W st' W' in Hstack, Hhandled, Hids, Hn, Hi.
  assert (r = completion W ev) as Hr by apply get_completion.
  unfold completion in Hr. unfold reported in Hhandled.
  rewrite Hthrow in Hr, Hhandled.
  split; [intros Hu; by rewrite Hu in Hr, Hhandled|].
  split.
  { intros Hu. rewrite Hu in Hr, Hhandled.
    by rewrite app_nil_r in Hhandled. }
  split; [done|]. split; [unfold target; by rewrite Hstack|].
  split; [done|]. split; [done|]. split; [done|].
  split; [exact Hsubs | exact Hexact].
Qed.

(** C5: when [run] executes on an active watcher and [get] returns [v],
    the callback is invoked with [(v, oldValue)] and the stored value
    replaced if [v] is not strictly equal to the stored value, or is an
    object, or the watcher is deep; otherwise the stored value stays and
    the callback is not invoked. *)
Theorem run_fires_on_change (traverse : JsVal → list nat)
    (w : nat) (ev : Evaluation) (cbThrows : option JsError) (st : Store)
    (v : JsVal) :
  let W := watchers st !!! w in
  let st' := (run traverse w ev cbThrows st).2 in
  let W' := watchers st' !!! w in
  let changed := negb (strict_eq v (value W)) || isObject v || deep W in
  active W = true →
  (get traverse w ev st).1 = Ok v →
  (changed = true →
     value W' = v ∧ callbacks st' = callbacks st ++ [(w, v, value W)]) ∧
  (changed = false →
     value W' = value W ∧ callbacks st' = callbacks st).
Proof.
  intros W st' W' changed Hactive Hget.
  destruct (get_fields traverse w ev st) as (_ & _ & _ & Hcb & _).
  pose proof (get_settings traverse w ev st w) as Hset.
  unfold settings in Hset. injection Hset as Hdeep Huser _ _ _ _ Hvalue.
  subst st' W'. unfold run. fold W. rewrite Hactive.
  destruct (get traverse w ev st) as [r st1] eqn:Hg. simpl in *. subst r.
  rewrite Hvalue, Hdeep. subst changed W.
  split; intros Hch; rewrite Hch.
  - destruct (user (watchers st1 !!! w)), cbThrows; simpl;
      rewrite lookup_total_insert_eq; simpl; by rewrite Hcb.
  - simpl. by rewrite Hvalue, Hcb.
Qed.

(** *** The computed getter *)

Lemma depend_if_active_frame (w : nat) (st : Store) :
  evaluated (depend_if_active w st) = evaluated st ∧
  ∀ x,
    settings (watchers (depend_if_active w st) !!! x)
      = settings (watchers st !!! x) ∧
    deps (watchers (depend_if_active w st) !!! x) = deps (watchers st !!! x).
Proof.
  unfold depend_if_active, depend. case_bool_decide; [|done]. split.
  - apply collect_fields.
  - intros x.
    destruct (collect_settings (reverse (deps (watchers st !!! w))) st x)
      as (Hs & Hg).
    split; [exact Hs|]. exact (f_equal fst Hg).
Qed.

Lemma depend_subscribes (w outer : nat) (st : Store) :
  target st = Some outer →
  (∀ d, d ∈ depIds (watchers st !!! outer) ∨
        d ∈ newDepIds (watchers st !!! outer) → outer ∈ subs st !!! d) →
  ∀ d, d ∈ deps (watchers st !!! w) →
       outer ∈ subs (depend_if_active w st) !!! d.
Proof.
  intros Ht Hinv d Hd. unfold depend_if_active, depend.
  rewrite bool_decide_eq_true_2 by (rewrite Ht; by eexists).
  destruct (collect_pending (reverse (deps (watchers st !!! w))) st outer Ht)
    as (_ & _ & _ & ->).
  case_bool_decide as Hnew.
  - rewrite elem_of_app, list_elem_of_singleton. by right.
  - apply Hinv.
    destruct (decide (d ∈ depIds (watchers st !!! outer))); [by left|].
    destruct (decide (d ∈ newDepIds (watchers st !!! outer))); [by right|].
    exfalso. apply Hnew. by rewrite elem_of_reverse.
Qed.

Lemma computedGetter_unfold (traverse : JsVal → list nat) (w : nat)
    (ev : Evaluation) (st : Store) :
  computedGetter traverse (Some w) ev st =
    if dirty (watchers st !!! w) then
      match (get traverse w ev st).1 with
      | Ok v =>
          let st1 :=
            depend_if_active w
              (set_dirty w false (set_value w v (get traverse w ev st).2)) in
          (Ok (value (watchers st1 !!! w)), st1)
      | Throw e => (Throw e, (get traverse w ev st).2)
      end
    else
      (Ok (value (watchers (depend_if_active w st) !!! w)),
       depend_if_active w st).
Proof.
  unfold computedGetter, evaluate, depend_if_active.
  destruct (dirty (watchers st !!! w)); [|done].
  by destruct (get traverse w ev st) as [[v|e] st1].
Qed.

(** C3: reading a computed property re-runs the evaluation function of
    its lazy watcher exactly when the watcher is dirty; when the
    evaluation returns, the watcher is clean and holds the result, which
    the getter returns; a clean watcher answers with the cached value
    without evaluating; a notification ([update]) of a lazy watcher only
    sets [dirty]: it returns, nothing is evaluated, queued, called back
    or reported, and every other member of the watcher, every other
    watcher and every subscriber list stay as they are; and after the
    read, when an observer is active, [depend] leaves it subscribed to
    every Dep the computed watcher tracks. *)
Theorem computedGetter_is_a_lazy_cache (traverse : JsVal → list nat)
    (w : nat) (ev : Evaluation) (st : Store) :
  let W := watchers st !!! w in
  let r := (computedGetter traverse (Some w) ev st).1 in
  let st' := (computedGetter traverse (Some w) ev st).2 in
  let W' := watchers st' !!! w in
  (dirty W = true →
     evaluated st' = evaluated st ++ [w] ∧
     ∀ v, (get traverse w ev st).1 = Ok v →
          r = Ok v ∧ dirty W' = false ∧ value W' = v) ∧
  (dirty W = false →
     r = Ok (value W) ∧ evaluated st' = evaluated st ∧
     dirty W' = false ∧ value W' = value W) ∧
  (lazy W = true →
     ∀ cbThrows,
       let up := update traverse w ev cbThrows st in
       up.1 = Ok () ∧
       dirty (watchers up.2 !!! w) = true ∧
       value (watchers up.2 !!! w) = value W ∧
       generation (watchers up.2 !!! w) = generation W ∧
       evaluated up.2 = evaluated st ∧ subs up.2 = subs st ∧
       queue up.2 = queue st ∧ callbacks up.2 = callbacks st ∧
       handled up.2 = handled st ∧ targetStack up.2 = targetStack st ∧
       watchers up.2 !!! w =
         mkWatcher (deep W) (user W) (lazy W) (sync W) true (active W)
           (deps W) (newDeps W) (depIds W) (newDepIds W) (value W) ∧
       ∀ x, x ≠ w → watchers up.2 !!! x = watchers st !!! x) ∧
  (∀ outer,
     target st = Some outer → outer ≠ w →
     (dirty W = true → ∃ v, (get traverse w ev st).1 = Ok v) →
     (∀ d, d ∈ depIds (watchers st !!! outer) ∨
           d ∈ newDepIds (watchers st !!! outer) → outer ∈ subs st !!! d) →
     ∀ d, d ∈ deps W' → outer ∈ subs st' !!! d).
Proof.
  intros W r st' W'. subst r st' W'. rewrite computedGetter_unfold. fold W.
  destruct (get_fields traverse w ev st) as (Hstack & Heval & _).
  split; [|split; [|split]].
  - intros Hdirty. rewrite Hdirty.
    destruct ((get traverse w ev st).1) as [v|e] eqn:Hget; simpl.
    + destruct (depend_if_active_frame w
                  (set_dirty w false (set_value w v (get traverse w ev st).2)))
        as (-> & Hframe).
      split; [exact Heval|]. intros v' [= <-].
      destruct (Hframe w) as (Hset & _). unfold settings in Hset.
      injection Hset as _ _ _ _ -> _ ->.
      simpl. by rewrite !lookup_total_insert_eq.
    + split; [exact Heval | done].
  - intros Hdirty. rewrite Hdirty. simpl.
    destruct (depend_if_active_frame w st) as (-> & Hframe).
    destruct (Hframe w) as (Hset & _). unfold settings in Hset.
    injection Hset as _ _ _ _ -> _ ->. done.
  - intros Hlazy cbThrows. unfold update. fold W. rewrite Hlazy. simpl.
    rewrite lookup_total_insert_eq. simpl.
    do 10 (split; [done|]).
    split; [fold W; by rewrite Hlazy|].
    intros x Hx. by rewrite lookup_total_insert_ne.
  - intros outer Ht Hne Hfresh Hinv d.
    destruct (dirty W) eqn:Hdirty.
    + destruct (Hfresh eq_refl) as [v Hv]. rewrite Hv. simpl.
      set (st1 := set_dirty w false (set_value w v (get traverse w ev st).2)).
      destruct (depend_if_active_frame w st1) as (_ & Hframe).
      destruct (Hframe w) as (_ & ->).
      apply depend_subscribes.
      * unfold target. subst st1. simpl. rewrite Hstack. exact Ht.
      * intros d'. subst st1. simpl.
        rewrite !lookup_total_insert_ne by done.
        rewrite get_other_watcher, get_other_subscribers by done.
        apply Hinv.
    + simpl.
      destruct (depend_if_active_frame w st) as (_ & Hframe).
      destruct (Hframe w) as (_ & ->).
      by apply depend_subscribes.
Qed.

(** *** Further properties of dependency collection *)

Lemma NoDup_remove_first (x : nat) (l : list nat) :
  NoDup l → NoDup (remove_first x l).
Proof.
  induction 1 as [|z l Hz Hl IH]; simpl; [constructor|].
  case_decide as Hx; [done|].
  apply NoDup_cons. split; [|done].
  by rewrite elem_of_remove_first_ne by done.
Qed.

Lemma remove_first_not_elem_of (x : nat) (l : list nat) :
  x ∉ l → remove_first x l = l.
Proof.
  induction l as [|z l IH]; simpl; [done|].
  rewrite not_elem_of_cons. intros (Hne & Hl).
  case_decide; [done|]. by rewrite IH.
Qed.


(** X14: For a getter that only reads reactive properties (it reads no
    computed property, starts no other watcher and writes no state: what
    an [Evaluation] describes), [get] is local to its watcher: it restores
    the stack of active observers, invokes no callback and queues nothing,
    leaves the flags and the value of its own watcher alone, and changes
    neither another watcher nor whether another watcher is subscribed to a
    Dep. *)
Theorem get_frame (traverse : JsVal → list nat) (w : nat) (ev : Evaluation)
    (st : Store) :
  let st' := (get traverse w ev st).2 in
  targetStack st' = targetStack st ∧
  evaluated st' = evaluated st ++ [w] ∧
  callbacks st' = callbacks st ∧ queue st' = queue st ∧
  settings (watchers st' !!! w) = settings (watchers st !!! w) ∧
  ∀ x, x ≠ w →
    watchers st' !!! x = watchers st !!! x ∧
    ∀ d, x ∈ subs st' !!! d ↔ x ∈ subs st !!! d.
Proof.
  intros st'.
  destruct (get_fields traverse w ev st) as (Hstack & Heval & _ & Hcb & Hq).
  repeat split; try done.
  - apply get_settings.
  - by apply get_other_watcher.
  - by apply get_other_subscribers.
  - by apply get_other_subscribers.
Qed.

(** X15: [get] keeps the subscriber lists and the Dep lists in step: when
    they mirror each other at the evaluated watcher before the call, they do
    so afterwards, at that watcher and at every other one they did before. *)
Theorem get_preserves_mirrored (traverse : JsVal → list nat) (w : nat)
    (ev : Evaluation) (st : Store) :
  mirrored w st →
  ∀ x, mirrored x st → mirrored x (get traverse w ev st).2.
Proof.
  intros (Hnew & Hids & Hnd & Hcons & Hsub & Hsubs).
  set (W := watchers st !!! w) in *.
  set (st' := (get traverse w ev st).2).
  assert (∀ d, NoDup (subs st' !!! d)) as Hsubs'.
  { intros d. subst st'. rewrite get_subs by done. fold W.
    repeat case_bool_decide; try done.
    - apply NoDup_app. split; [done|]. split; [|apply NoDup_singleton].
      intros y Hy ->%list_elem_of_singleton. by apply Hsub in Hy.
    - by apply NoDup_remove_first. }
  intros x Hx. destruct (decide (x = w)) as [->|Hne].
  - destruct (get_deps_exact traverse w ev st Hnew Hids)
      as (Hdeps' & Hnd' & Hids' & Hn' & Hi').
    fold W st' in Hdeps', Hnd', Hids', Hn', Hi'.
    unfold mirrored. fold st'.
    split; [done|]. split; [done|]. split; [done|].
    split; [intros d; by rewrite Hdeps', Hids'|]. split; [|done].
    intros d. rewrite Hids'. subst st'. rewrite get_subs by done. fold W.
    destruct (decide (d ∈ all_reads traverse W ev)) as [Hr|Hr].
    + rewrite (bool_decide_eq_true_2 _ Hr).
      case_bool_decide as Hold.
      * split; [done|]. intros _. by apply Hsub.
      * split; [done|]. intros _.
        rewrite elem_of_app, list_elem_of_singleton. by right.
    + rewrite (bool_decide_eq_false_2 _ Hr).
      case_bool_decide as Hold.
      * split; [|done]. intros Hin.
        by apply (not_elem_of_remove_first w (subs st !!! d)) in Hin.
      * split; [|done]. intros Hin. apply Hsub, Hcons in Hin. done.
  - destruct Hx as (Hxn & Hxi & Hxnd & Hxc & Hxs & _).
    unfold mirrored. fold st'. subst st'.
    rewrite get_other_watcher by done.
    repeat split; try done; try apply Hxc.
    + intros Hin. apply Hxs. by apply (get_other_subscribers traverse w ev st x d).
    + intros Hin. apply (get_other_subscribers traverse w ev st x d); [done|].
      by apply Hxs.
Qed.

(** X16: A Dep read again during the same evaluation is recorded once:
    [addDep] with the same Dep a second time changes nothing. *)
Theorem addDep_idempotent (w dep : nat) (st : Store) :
  addDep w dep (addDep w dep st) = addDep w dep st.
Proof.
  destruct (addDep_self w dep st) as (_ & _ & Hids & _).
  unfold addDep at 1.
  rewrite bool_decide_eq_true_2; [done|].
  rewrite Hids. clear. set_solver.
Qed.

(** *** Further properties of [run] and of the computed getter *)

(** X17: [run] throws only for an active watcher that is not a user watcher,
    and then either the error of its getter or, when the value counts as
    changed, the error of its callback; a user watcher's [run] always
    returns. *)
Theorem run_throws_iff (traverse : JsVal → list nat) (w : nat)
    (ev : Evaluation) (cbThrows : option JsError) (st : Store) (e : JsError) :
  let W := watchers st !!! w in
  (run traverse w ev cbThrows st).1 = Throw e ↔
    active W = true ∧ user W = false ∧
    (outcome ev = Throw e ∨
     ∃ v, outcome ev = Ok v ∧
          negb (strict_eq v (value W)) || isObject v || deep W = true ∧
          cbThrows = Some e).
Proof.
  intros W. unfold run. fold W.
  pose proof (get_settings traverse w ev st w) as Hset.
  pose proof (get_completion traverse w ev st) as Hget.
  unfold settings in Hset. injection Hset as Hdeep Huser _ _ _ _ Hvalue.
  fold W in Hdeep, Huser, Hvalue, Hget.
  destruct (get traverse w ev st) as [r st1]. simpl in *. subst r.
  rewrite Hvalue, Hdeep, Huser. unfold completion.
  destruct (active W); [|split; [done | by intros (? & _)]].
  destruct (outcome ev) as [v|e'] eqn:Hout; simpl.
  - destruct (negb (strict_eq v (value W)) || isObject v || deep W) eqn:Hch.
    + destruct (user W), cbThrows as [e''|]; simpl; split; try done.
      * by intros (_ & ? & _).
      * by intros (_ & ? & _).
      * intros [= ->]. repeat split; try done. right. by exists v.
      * intros (_ & _ & [?|(v' & [= <-] & _ & [= ->])]); done.
      * intros (_ & _ & [?|(v' & _ & _ & ?)]); done.
    + simpl. split; [done|].
      intros (_ & _ & [?|(v' & [= <-] & Hch' & _)]); [done|].
      rewrite Hch in Hch'. done.
  - destruct (user W); simpl.
    + split; [|by intros (_ & ? & _)].
      by destruct (_ || _).
    + split.
      * intros [= ->]. repeat split; try done. by left.
      * intros (_ & _ & [[= ->]|(v' & ? & _)]); done.
Qed.

Lemma collect_known (l : list nat) :
  ∀ st w, target st = Some w →
    (∀ d, d ∈ l → d ∈ newDepIds (watchers st !!! w)) →
    foldl dep_depend st l = st.
Proof.
  induction l as [|a l IH]; intros st w Ht Hknown; simpl; [done|].
  assert (dep_depend st a = st) as ->.
  { unfold dep_depend. rewrite Ht. unfold addDep.
    rewrite bool_decide_eq_true_2; [done|].
    apply Hknown, list_elem_of_here. }
  apply (IH st w Ht). intros d Hd. by apply Hknown, list_elem_of_further.
Qed.

Lemma depend_if_active_idempotent (w : nat) (st : Store) :
  depend_if_active w (depend_if_active w st) = depend_if_active w st.
Proof.
  destruct (decide (is_Some (target st))) as [[outer Ht]|Hnone].
  - assert (depend_if_active w st = depend w st) as ->.
    { unfold depend_if_active.
      by rewrite bool_decide_eq_true_2 by (rewrite Ht; by eexists). }
    set (l := reverse (deps (watchers st !!! w))).
    assert (depend w st = foldl dep_depend st l) as Hdep by done.
    destruct (collect_fields l st) as (Hstack & _).
    destruct (collect_settings l st w) as (_ & Hgen).
    destruct (collect_pending l st outer Ht) as (Hids & _).
    simpl in Hgen, Hids. rewrite <- Hdep in Hstack, Hgen, Hids.
    assert (target (depend w st) = Some outer) as Ht'
      by (unfold target; by rewrite Hstack).
    unfold depend_if_active.
    rewrite bool_decide_eq_true_2 by (rewrite Ht'; by eexists).
    unfold generation in Hgen. injection Hgen as Hdeps _.
    unfold depend at 1. rewrite Hdeps. fold l.
    apply (collect_known l _ outer Ht').
    intros d Hd. rewrite Hids. clear -Hd. set_solver.
  - assert (depend_if_active w st = st) as Hid.
    { unfold depend_if_active. by rewrite bool_decide_eq_false_2. }
    by rewrite !Hid.
Qed.

(** X18: A read of a computed property that returns is repeatable: the next
    read, whatever its evaluation function would do, does not evaluate,
    returns the same value and leaves the store as it is. *)
Theorem computedGetter_second_read (traverse : JsVal → list nat) (w : nat)
    (ev ev' : Evaluation) (st : Store) (v : JsVal) :
  let first := computedGetter traverse (Some w) ev st in
  first.1 = Ok v →
  computedGetter traverse (Some w) ev' first.2 = (Ok v, first.2).
Proof.
  intros first Hfirst. subst first.
  rewrite computedGetter_unfold in Hfirst.
  rewrite (computedGetter_unfold traverse w ev' _).
  rewrite (computedGetter_unfold traverse w ev st).
  destruct (dirty (watchers st !!! w)) eqn:Hdirty.
  - destruct ((get traverse w ev st).1) as [v'|e]; [|done].
    simpl in *.
    set (st1 := set_dirty w false
                  (set_value w v' (get traverse w ev st).2)) in *.
    destruct (depend_if_active_frame w st1) as (_ & Hframe).
    destruct (Hframe w) as (Hset & _). unfold settings in Hset.
    injection Hset as _ _ _ _ Hd _ _. rewrite Hd.
    subst st1. simpl. rewrite lookup_total_insert_eq. simpl.
    rewrite depend_if_active_idempotent. by injection Hfirst as ->.
  - simpl in *.
    destruct (depend_if_active_frame w st) as (_ & Hframe).
    destruct (Hframe w) as (Hset & _). unfold settings in Hset.
    injection Hset as _ _ _ _ Hd _ _. rewrite Hd, Hdirty.
    rewrite depend_if_active_idempotent. by injection Hfirst as ->.
Qed.

(** X19: When the evaluation of a dirty computed watcher throws, the read
    throws the same error: the watcher stays dirty and keeps its cached
    value, the evaluation is recorded, no dependency is handed to the
    observer that was reading, and the stack of active observers is as
    before. *)
Theorem computedGetter_when_evaluation_throws (traverse : JsVal → list nat)
    (w : nat) (ev : Evaluation) (st : Store) (e : JsError) :
  let W := watchers st !!! w in
  let r := computedGetter traverse (Some w) ev st in
  dirty W = true → user W = false → outcome ev = Throw e →
  r.1 = Throw e ∧ r.2 = (get traverse w ev st).2 ∧
  dirty (watchers r.2 !!! w) = true ∧
  value (watchers r.2 !!! w) = value W ∧
  evaluated r.2 = evaluated st ++ [w] ∧
  targetStack r.2 = targetStack st.
Proof.
  intros W r Hdirty Huser Hthrow. subst r.
  rewrite computedGetter_unfold. fold W. rewrite Hdirty.
  rewrite get_completion. fold W. unfold completion.
  rewrite Hthrow, Huser. simpl.
  destruct (get_fields traverse w ev st) as (Hstack & Heval & _).
  pose proof (get_settings traverse w ev st w) as Hset.
  unfold settings in Hset. injection Hset as _ _ _ _ Hd _ Hv.
  fold W in Hd, Hv. by rewrite Hd, Hv.
Qed.

(** *** The life cycle of a watcher *)

Lemma teardown_loop (w : nat) (l : list nat) (st : Store) :
  foldl (λ st dep, removeSub dep w st) st l = foldl (unsubscribe w ∅) st l.
Proof.
  revert st. induction l as [|d l IH]; intros st; simpl; [done|].
  rewrite IH. by f_equal.
Qed.

Lemma teardown_unfold (w : nat) (vm : Vm) (st : Store) :
  let W := watchers st !!! w in
  active W = true →
  (teardown w vm st).2 =
    set_watcher w
      (mkWatcher (deep W) (user W) (lazy W) (sync W) (dirty W) false
         (deps W) (newDeps W) (depIds W) (newDepIds W) (value W))
      (foldl (unsubscribe w ∅) st (reverse (deps W))).
Proof.
  intros W Hactive. unfold teardown. fold W. rewrite Hactive. simpl.
  rewrite teardown_loop.
  destruct (unsubscribe_fields w ∅ (reverse (deps W)) st) as (-> & _).
  done.
Qed.

Lemma teardown_store (w : nat) (vm : Vm) (st : Store) :
  let W := watchers st !!! w in
  let st' := (teardown w vm st).2 in
  let W' := watchers st' !!! w in
  active W = true → NoDup (deps W) →
  active W' = false ∧ deps W' = deps W ∧ value W' = value W ∧
  (∀ d, subs st' !!! d =
        if bool_decide (d ∈ deps W) then remove_first w (subs st !!! d)
        else subs st !!! d) ∧
  (∀ x, x ≠ w →
        watchers st' !!! x = watchers st !!! x ∧
        ∀ d, x ∈ subs st' !!! d ↔ x ∈ subs st !!! d).
Proof.
  intros W st' W' Hactive Hnd. subst W' st'.
  rewrite teardown_unfold by done. fold W. simpl.
  rewrite lookup_total_insert_eq. simpl.
  repeat split; try done.
  - intros d. rewrite unsubscribe_subs by (by rewrite reverse_Permutation).
    apply if_bool_decide_ext. rewrite elem_of_reverse.
    split; [by intros (? & _) | intros ?; split; [done|]].
    apply not_elem_of_empty.
  - rewrite lookup_total_insert_ne by done.
    by destruct (unsubscribe_fields w ∅ (reverse (deps W)) st) as (-> & _).
  - by apply unsubscribe_others.
  - by apply unsubscribe_others.
Qed.

(** X20: [teardown] of an active watcher marks it inactive and takes it out
    of the subscribers of each Dep it tracks, once, so that it is subscribed
    to none of them when no list held it twice; it touches no other
    subscriber list, no subscription of another watcher and no other
    watcher, and leaves the watcher's own Dep lists as they are. *)
Theorem teardown_unsubscribes (w : nat) (vm : Vm) (st : Store) :
  let W := watchers st !!! w in
  let st' := (teardown w vm st).2 in
  let W' := watchers st' !!! w in
  active W = true → NoDup (deps W) →
  active W' = false ∧ deps W' = deps W ∧ value W' = value W ∧
  (∀ d, subs st' !!! d =
        if bool_decide (d ∈ deps W) then remove_first w (subs st !!! d)
        else subs st !!! d) ∧
  (∀ d, d ∈ deps W → NoDup (subs st !!! d) → w ∉ subs st' !!! d) ∧
  (∀ x, x ≠ w →
        watchers st' !!! x = watchers st !!! x ∧
        ∀ d, x ∈ subs st' !!! d ↔ x ∈ subs st !!! d).
Proof.
  intros W st' W' Hactive Hnd.
  destruct (teardown_store w vm st Hactive Hnd)
    as (Hoff & Hdeps & Hvalue & Hsubs & Hother).
  fold W st' W' in Hoff, Hdeps, Hvalue, Hsubs, Hother.
  split; [done|]. split; [done|]. split; [done|]. split; [done|].
  split; [|done].
  intros d Hd Hdup. rewrite Hsubs, bool_decide_eq_true_2 by done.
  by apply not_elem_of_remove_first.
Qed.

(** X21: [teardown] is idempotent, and after it [run] does nothing: it
    neither evaluates nor calls back, whatever the getter and the callback
    would do. *)
Theorem teardown_is_final (traverse : JsVal → list nat) (w : nat) (vm : Vm)
    (st : Store) (ev : Evaluation) (cbThrows : option JsError) :
  let t := teardown w vm st in
  teardown w t.1 t.2 = t ∧
  run traverse w ev cbThrows t.2 = (Ok (), t.2).
Proof.
  intros t.
  assert (active (watchers t.2 !!! w) = false) as Hoff.
  { subst t. unfold teardown.
    destruct (active (watchers st !!! w)) eqn:Hactive; simpl; [|done].
    by rewrite lookup_total_insert_eq. }
  split.
  - unfold teardown at 1. rewrite Hoff. by destruct t.
  - unfold run. by rewrite Hoff.
Qed.

Lemma dep_depend_inactive (l : list nat) (st : Store) :
  target st = None → foldl dep_depend st l = st.
Proof.
  intros Ht. induction l as [|d l IH]; simpl; [done|].
  unfold dep_depend at 2. by rewrite Ht.
Qed.

Lemma popTarget_pushTarget (t : option nat) (st : Store) :
  popTarget (pushTarget t st) = st.
Proof. by destruct st. Qed.

(** X22: [getData] calls the data function with no observer active: for a
    data function that only reads reactive properties (it reads no
    computed property and writes no state: what an [Evaluation]
    describes), whichever of them it reads, no watcher and no subscriber
    list changes, and the stack of active observers is restored; it never
    throws, an error of the function is reported and answered with an
    empty object. *)
Theorem getData_collects_nothing (who : nat) (ev : Evaluation) (st : Store) :
  getData who ev st =
    match outcome ev with
    | Ok v => (Returned v, st)
    | Throw e => (EmptyObject, handleError e who st)
    end.
Proof.
  unfold getData. rewrite dep_depend_inactive by done.
  destruct (outcome ev) as [v|e].
  - by rewrite popTarget_pushTarget.
  - by destruct st.
Qed.

(** X23: A lazy watcher is constructed without evaluating its getter:
    nothing is evaluated or subscribed, the watcher is dirty and holds
    undefined. The first read of the computed property it serves evaluates
    once and, when the evaluation returns, answers with its result. *)
Theorem newWatcher_lazy_defers (traverse : JsVal → list nat) (w : nat)
    (o : Options.t) (ev0 : Evaluation) (vm : Vm) (st : Store) :
  let n := newWatcher traverse w (Some o) ev0 vm st in
  Options.lazy o = true →
  n.1.1 = Ok () ∧ n.2 = set_watcher w (fresh_watcher o) st ∧
  _watchers n.1.2 = _watchers vm ++ [w] ∧
  ∀ ev,
    let r := computedGetter traverse (Some w) ev n.2 in
    evaluated r.2 = evaluated st ++ [w] ∧
    ∀ v, outcome ev = Ok v → r.1 = Ok v.
Proof.
  intros n Hlazy.
  assert (n = (Ok (), mkVm (_watchers vm ++ [w]) (_isBeingDestroyed vm),
               set_watcher w (fresh_watcher o) st)) as ->.
  { subst n. unfold newWatcher, fresh_watcher. simpl. by rewrite Hlazy. }
  cbn [fst snd _watchers].
  split; [done|]. split; [done|]. split; [done|]. intros ev.
  set (st0 := set_watcher w _ st).
  rewrite computedGetter_unfold.
  assert (dirty (watchers st0 !!! w) = true) as ->
    by (subst st0; simpl; by rewrite lookup_total_insert_eq).
  destruct (get_fields traverse w ev st0) as (_ & Heval & _).
  rewrite get_completion. unfold completion.
  destruct (outcome ev) as [v|e]; simpl.
  - destruct (depend_if_active_frame w
               (set_dirty w false (set_value w v (get traverse w ev st0).2)))
      as (-> & Hframe).
    split; [exact Heval|]. intros v' [= <-].
    destruct (Hframe w) as (Hset & _). unfold settings in Hset.
    injection Hset as _ _ _ _ _ _ ->.
    simpl. by rewrite !lookup_total_insert_eq.
  - destruct (user _); simpl.
    + destruct (depend_if_active_frame w
                 (set_dirty w false
                    (set_value w JUndef (get traverse w ev st0).2)))
        as (-> & _).
      split; [exact Heval | done].
    + split; [exact Heval | done].
Qed.

Lemma watch_unfold (traverse : JsVal → list nat) (w : nat)
    (options : option Options.t) (ev : Evaluation)
    (cbThrows : option JsError) (vm : Vm) (st : Store) :
  let o := watch_options options in
  let st0 := set_watcher w (fresh_watcher o) st in
  let st1 :=
    if Options.lazy o then st0
    else set_value w (got ev) (get traverse w ev st0).2 in
  let st2 := invoke_cb w (first_value o ev) JUndef st1 in
  watch traverse w options ev cbThrows vm st =
    (Ok (), mkVm (_watchers vm ++ [w]) (_isBeingDestroyed vm),
     if Options.immediate o then
       match cbThrows with
       | Some e => handleError e w st2
       | None => st2
       end
     else st1).
Proof.
  intros o st0 st1 st2. unfold watch. fold (watch_options options). fold o.
  unfold newWatcher. fold (fresh_watcher o). fold st0.
  assert (watchers st0 !!! w = fresh_watcher o) as HW
    by (subst st0; simpl; by rewrite lookup_total_insert_eq).
  subst st2 st1. unfold first_value.
  change (lazy (fresh_watcher o)) with (Options.lazy o).
  destruct (Options.lazy o).
  - rewrite HW. by destruct (Options.immediate o).
  - pose proof (get_completion traverse w ev st0) as Hget.
    rewrite HW in Hget. unfold completion in Hget.
    change (user (fresh_watcher o)) with true in Hget.
    destruct (get traverse w ev st0) as [r stG]. simpl in Hget. subst r.
    assert (value (watchers (set_value w (got ev) stG) !!! w) = got ev) as Hv
      by (simpl; by rewrite lookup_total_insert_eq).
    unfold got in *.
    destruct (outcome ev) as [v|e]; cbn [snd]; rewrite Hv;
      by destruct (Options.immediate o).
Qed.

(** X24: [$watch] never throws: the getter is evaluated once, unless the
    watcher is lazy, and its error is reported, the watcher then holding
    undefined; with [immediate] the callback is invoked once, with the value
    the watcher holds and no old value, and its error is reported too. *)
Theorem watch_never_throws (traverse : JsVal → list nat) (w : nat)
    (options : option Options.t) (ev : Evaluation)
    (cbThrows : option JsError) (vm : Vm) (st : Store) :
  let o := watch_options options in
  let r := watch traverse w options ev cbThrows vm st in
  r.1.1 = Ok () ∧
  value (watchers r.2 !!! w) = first_value o ev ∧
  evaluated r.2 = evaluated st ++ (if Options.lazy o then [] else [w]) ∧
  callbacks r.2 =
    callbacks st ++
    (if Options.immediate o then [(w, first_value o ev, JUndef)] else []) ∧
  handled r.2 =
    handled st ++
    (if Options.lazy o then []
     else match outcome ev with
          | Throw e => [(e, w)]
          | Ok _ => []
          end) ++
    (if Options.immediate o
     then match cbThrows with
          | Some e => [(e, w)]
          | None => []
          end
     else []).
Proof.
  intros o r. subst r. rewrite watch_unfold. fold o.
  set (st0 := set_watcher w (fresh_watcher o) st).
  assert (watchers st0 !!! w = fresh_watcher o) as HW
    by (subst st0; simpl; by rewrite lookup_total_insert_eq).
  destruct (get_fields traverse w ev st0) as (_ & Heval & Hhandled & Hcb & _).
  rewrite HW in Hhandled. unfold reported in Hhandled.
  change (user (fresh_watcher o)) with true in Hhandled.
  unfold first_value.
  set (st1 := if Options.lazy o then st0
              else set_value w (got ev) (get traverse w ev st0).2).
  assert (value (watchers st1 !!! w)
            = (if Options.lazy o then JUndef else got ev) ∧
          evaluated st1
            = evaluated st ++ (if Options.lazy o then [] else [w]) ∧
          callbacks st1 = callbacks st ∧
          handled st1
            = handled st ++
              (if Options.lazy o then []
               else match outcome ev with
                    | Throw e => [(e, w)]
                    | Ok _ => []
                    end)) as (Hv1 & He1 & Hc1 & Hh1).
  { subst st1. destruct (Options.lazy o).
    - rewrite HW, !app_nil_r. done.
    - simpl. rewrite lookup_total_insert_eq. simpl. rewrite Heval, Hcb, Hhandled.
      by destruct (outcome ev). }
  cbn [fst snd]. split; [done|].
  destruct (Options.immediate o), cbThrows as [e|];
    unfold handleError, invoke_cb;
    cbn [watchers evaluated callbacks handled];
    rewrite ?Hv1, ?He1, ?Hc1, ?Hh1, ?app_nil_r, ?app_assoc; done.
Qed.


(** *** The claims at the example store *)

Local Open Scope nat_scope.

Lemma get_tracks_exactly_the_reads_witness :
  (∀ d, d ∈ deps (watchers (get shallow 1 reads_10_12 example_store).2 !!! 1)
        ↔ d ∈ [10; 12]) ∧
  1 ∉ subs (get shallow 1 reads_10_12 example_store).2 !!! 11.
Proof.
  destruct (get_tracks_exactly_the_reads shallow 1 reads_10_12 example_store)
    as (Hexact & _ & _ & _ & _ & _ & Hgone & _).
  - reflexivity.
  - reflexivity.
  - apply (NoDup_cons_2 10 [11]); [|apply NoDup_singleton].
    intros H%list_elem_of_singleton. discriminate H.
  - split; [exact Hexact|].
    apply (Hgone 11).
    + apply list_elem_of_further, list_elem_of_here.
    + intros [H|H%list_elem_of_singleton]%elem_of_cons; discriminate H.
    + apply NoDup_singleton.
Defined.

Lemma get_when_getter_throws_witness :
  (get shallow 3 throws_after_10 example_store).1 = Ok JUndef ∧
  target (get shallow 3 throws_after_10 example_store).2 = Some 2.
Proof.
  destruct (get_when_getter_throws shallow 3 throws_after_10 example_store
              (UserError (JStr "boom")) eq_refl)
    as (Huser & _ & _ & Htarget & _).
  split; [exact (proj1 (Huser eq_refl)) | exact Htarget].
Defined.

Lemma run_fires_on_change_witness :
  value (watchers (run shallow 3 reads_10_12 None example_store).2 !!! 3)
    = JNum 5 ∧
  callbacks (run shallow 3 reads_10_12 None example_store).2
    = [(3, JNum 5, JNum 1)].
Proof.
  exact (proj1 (run_fires_on_change shallow 3 reads_10_12 None example_store
                  (JNum 5) eq_refl eq_refl) eq_refl).
Defined.

Lemma computedGetter_is_a_lazy_cache_witness :
  (computedGetter shallow (Some 1) reads_10_12 example_store).1
    = Ok (JNum 5) ∧
  2 ∈ subs (computedGetter shallow (Some 1) reads_10_12 example_store).2
        !!! 12.
Proof.
  destruct (computedGetter_is_a_lazy_cache shallow 1 reads_10_12 example_store)
    as (Hdirty & _ & _ & Hdepend).
  split.
  - exact (proj1 (proj2 (Hdirty eq_refl) (JNum 5) eq_refl)).
  - apply (Hdepend 2 eq_refl).
    + discriminate.
    + intros _. by exists (JNum 5).
    + intros d [H|H]; exfalso; revert H; apply not_elem_of_empty.
    + apply list_elem_of_further, list_elem_of_here.
Defined.

Lemma example_subs (d : nat) :
  subs example_store !!! d = if bool_decide (d = 10 ∨ d = 11) then [1] else [].
Proof.
  unfold example_store. cbn [subs].
  destruct (decide (d = 10)) as [->|H10]; [done|].
  rewrite lookup_total_insert_ne by done.
  destruct (decide (d = 11)) as [->|H11]; [done|].
  rewrite lookup_total_singleton_ne by done.
  rewrite bool_decide_eq_false_2; [done|]. by intros [?|?].
Qed.

Lemma example_store_mirrored : mirrored 1 example_store.
Proof.
  unfold mirrored.
  change (watchers example_store !!! 1) with computed_watcher. cbn.
  split; [done|]. split; [done|]. split.
  { apply (NoDup_cons_2 10 [11]); [|apply NoDup_singleton].
    intros H%list_elem_of_singleton. discriminate H. }
  split; [intros d; set_solver|]. split.
  - intros d. rewrite example_subs. case_bool_decide as Hd.
    + split; [intros _; set_solver | intros _; apply list_elem_of_here].
    + split; [by intros ?%not_elem_of_nil | intros ?; set_solver].
  - intros d. rewrite example_subs. case_bool_decide.
    + apply NoDup_singleton.
    + apply NoDup_nil_2.
Qed.

Lemma get_preserves_mirrored_witness :
  mirrored 1 (get shallow 1 reads_10_12 example_store).2.
Proof.
  exact (get_preserves_mirrored shallow 1 reads_10_12 example_store
           example_store_mirrored 1 example_store_mirrored).
Defined.

Lemma computedGetter_second_read_witness :
  computedGetter shallow (Some 1) throws_after_10
    (computedGetter shallow (Some 1) reads_10_12 example_store).2
  = (Ok (JNum 5), (computedGetter shallow (Some 1) reads_10_12 example_store).2).
Proof.
  exact (computedGetter_second_read shallow 1 reads_10_12 throws_after_10
           example_store (JNum 5) eq_refl).
Defined.

Lemma computedGetter_when_evaluation_throws_witness :
  (computedGetter shallow (Some 1) throws_after_10 example_store).1
    = Throw (UserError (JStr "boom")) ∧
  dirty (watchers (computedGetter shallow (Some 1) throws_after_10
                     example_store).2 !!! 1) = true.
Proof.
  destruct (computedGetter_when_evaluation_throws shallow 1 throws_after_10
              example_store (UserError (JStr "boom")) eq_refl eq_refl eq_refl)
    as (Hr & _ & Hdirty & _).
  split; [exact Hr | exact Hdirty].
Defined.

Lemma teardown_unsubscribes_witness :
  1 ∉ subs (teardown 1 example_vm example_store).2 !!! 10.
Proof.
  destruct (teardown_unsubscribes 1 example_vm example_store eq_refl)
    as (_ & _ & _ & _ & Hgone & _).
  - apply (NoDup_cons_2 10 [11]); [|apply NoDup_singleton].
    intros H%list_elem_of_singleton. discriminate H.
  - apply (Hgone 10).
    + apply list_elem_of_here.
    + apply NoDup_singleton.
Defined.

Lemma newWatcher_lazy_defers_witness :
  evaluated (computedGetter shallow (Some 4) reads_10_12
               (newWatcher shallow 4
                  (Some (Options.mk false false true false false))
                  throws_after_10 example_vm example_store).2).2 = [4].
Proof.
  destruct (newWatcher_lazy_defers shallow 4
              (Options.mk false false true false false) throws_after_10
              example_vm example_store eq_refl)
    as (_ & _ & _ & Hread).
  exact (proj1 (Hread reads_10_12)).
Defined.


End Observer.

(** ** The [renderSlot] render helper *)

Module RenderHelpers.

(** The value bound with [v-bind] on a slot, when it is truthy: whether
    it is an object, and its enumerable members. *)
Record BindObject : Type := mkBind {
  bind_isObject : bool;
  bind_members : gmap string JsVal
}.

(** The parts of the component instance that [renderSlot] reads. *)
Record Instance : Type := mkInstance {
  scopedSlots : gmap string (gmap string JsVal → option (list Patch.VNode));
  slots : gmap string (list Patch.VNode)
}.

(** What [renderSlot] returns: the nodes as they are, or the element
    [this.$createElement ('template', { slot: target }, nodes)]. *)
Inductive Rendered : Type :=
  | Nodes (nodes : option (list Patch.VNode))
  | Template (slot : JsVal) (children : option (list Patch.VNode)).

Inductive Warning : Type :=
  | SlotBindExpectsObject.

(** Modelled from the spec: [extend (to, _from)] of [shared/util] copies
    the members of [_from] over those of [to]. *)
Definition extend (to _from : gmap string JsVal) : gmap string JsVal :=
  _from ∪ to.

(** [a || b] on node arrays, where a missing array is falsy. *)
Definition or_else (a b : option (list Patch.VNode))
    : option (list Patch.VNode) :=
  match a with
  | Some _ => a
  | None => b
  end.

(** [renderSlot (name, fallback, props, bindObject)] with [this]; a
    scoped-slot function answers with nodes or with a falsy value. *)
Definition renderSlot (production : bool) (this : Instance) (name : string)
    (fallback : option (list Patch.VNode))
    (props : option (gmap string JsVal)) (bindObject : option BindObject)
    : list Warning * Rendered :=
  let '(warnings, props, nodes) :=
    match scopedSlots this !! name with
    | Some scopedSlotFn =>
        let props := default ∅ props in
        let '(warnings, props) :=
          match bindObject with
          | Some b =>
              (if negb production && negb (bind_isObject b)
               then [SlotBindExpectsObject] else [],
               extend (extend ∅ (bind_members b)) props)
          | None => ([], props)
          end in
        (warnings, Some props, or_else (scopedSlotFn props) fallback)
    | None => ([], props, or_else (slots this !! name) fallback)
    end in
  let target :=
    match props with
    | Some props => default JUndef (props !! "slot"%string)
    | None => JUndef
    end in
  (warnings, if truthy target then Template target nodes else Nodes nodes).

(** The [slot] member of the props, undefined without props. *)
Definition slot_target (props : option (gmap string JsVal)) : JsVal :=
  match props with
  | Some props => default JUndef (props !! "slot"%string)
  | None => JUndef
  end.

(** [merged] holds the explicit props over the members of the bound
    object. *)
Definition merged_over (props : option (gmap string JsVal))
    (bindObject : option BindObject) (merged : gmap string JsVal) : Prop :=
  ∀ k,
    merged !! k =
      match props ≫= (λ p, p !! k) with
      | Some v => Some v
      | None => bindObject ≫= (λ b, bind_members b !! k)
      end.

(** C10: [renderSlot] resolves the nodes in two steps.  With a scoped-slot
    function for [name], the function is called with the props merged over
    the bound object and its result is used, [fallback] standing in for a
    falsy result; without one, [this.$slots[name]] is used, [fallback]
    standing in when it is absent.  When the effective props (the merged
    ones in the first case, the given ones in the second) carry a slot
    target, the nodes are wrapped in one [template] element bearing that
    target; otherwise they are returned as they are. *)
Theorem renderSlot_resolution (production : bool) (this : Instance)
    (name : string) (fallback : option (list Patch.VNode))
    (props : option (gmap string JsVal)) (bindObject : option BindObject) :
  ∃ effective nodes,
    (renderSlot production this name fallback props bindObject).2 =
      (if truthy (slot_target effective)
       then Template (slot_target effective) nodes
       else Nodes nodes) ∧
    match scopedSlots this !! name with
    | Some scopedSlotFn =>
        ∃ merged,
          effective = Some merged ∧
          merged_over props bindObject merged ∧
          nodes = match scopedSlotFn merged with
                  | Some result => Some result
                  | None => fallback
                  end
    | None =>
        effective = props ∧
        nodes = match slots this !! name with
                | Some content => Some content
                | None => fallback
                end
    end.
Proof.
  unfold renderSlot.
  destruct (scopedSlots this !! name) as [scopedSlotFn|].
  - destruct bindObject as [b|]; simpl.
    + eexists (Some _), _. split; [done|]. eexists. split; [done|].
      split; [|by destruct (scopedSlotFn _)].
      intros k. unfold extend. rewrite lookup_union, lookup_union.
      rewrite lookup_empty. simpl.
      destruct props as [p|]; simpl.
      * destruct (p !! k), (bind_members b !! k); done.
      * rewrite lookup_empty. by destruct (bind_members b !! k).
    + eexists (Some _), _. split; [done|]. eexists. split; [done|].
      split; [|by destruct (scopedSlotFn _)].
      intros k. destruct props as [p|]; simpl.
      * by destruct (p !! k).
      * by rewrite lookup_empty.
  - exists props, (or_else (slots this !! name) fallback).
    split; [done|]. split; [done|]. by destruct (slots this !! name).
Qed.

(** X26: The warning is a development aid only: it is emitted exactly when,
    outside production, a scoped-slot function exists for [name] and the
    bound value is not an object; and what [renderSlot] returns does not
    depend on the build. *)
Theorem renderSlot_warns_in_development (production : bool) (this : Instance)
    (name : string) (fallback : option (list Patch.VNode))
    (props : option (gmap string JsVal)) (bindObject : option BindObject) :
  (renderSlot production this name fallback props bindObject).1 =
    (if negb production
        && bool_decide (is_Some (scopedSlots this !! name))
        && match bindObject with
           | Some b => negb (bind_isObject b)
           | None => false
           end
     then [SlotBindExpectsObject] else []) ∧
  (renderSlot production this name fallback props bindObject).2 =
    (renderSlot (negb production) this name fallback props bindObject).2.
Proof.
  unfold renderSlot.
  destruct (scopedSlots this !! name) as [scopedSlotFn|]; simpl.
  - destruct bindObject as [b|]; simpl.
    + split; [|done]. by destruct production, (bind_isObject b).
    + split; [|done]. by destruct production.
  - split; [|done]. by destruct production.
Qed.

(** X27: Without a scoped-slot function for [name] the bound object plays no
    part: nothing is merged into the props, so a slot target it carries is
    not seen, and no warning is emitted. *)
Theorem renderSlot_without_scoped_slot (production : bool) (this : Instance)
    (name : string) (fallback : option (list Patch.VNode))
    (props : option (gmap string JsVal)) (bindObject : option BindObject) :
  scopedSlots this !! name = None →
  renderSlot production this name fallback props bindObject =
    renderSlot production this name fallback props None ∧
  (renderSlot production this name fallback props bindObject).1 = [].
Proof.
  intros Hnone. unfold renderSlot. by rewrite Hnone.
Qed.

Lemma renderSlot_without_scoped_slot_witness :
  renderSlot false (mkInstance ∅ ∅) "default" None None
    (Some (mkBind true {[ "slot"%string := JStr "footer" ]}))
  = ([], Nodes None).
Proof.
  destruct (renderSlot_without_scoped_slot false (mkInstance ∅ ∅) "default"
              None None
              (Some (mkBind true {[ "slot"%string := JStr "footer" ]})))
    as (Hsame & _); [reflexivity|].
  rewrite Hsame. reflexivity.
Defined.

End RenderHelpers.
